(** * Request gating of the TradieMate analytics server

    A shallow embedding of [security_config.py] and of the request path of
    [main.py]: the sliding-window rate limiter, the API-key authenticator,
    the query validator, the security headers and the middleware chain.

    Conventions.
    - A Python [str] whose code points are below 256 is a [string], one
      [ascii] per code point.
    - A [datetime] is the number of microseconds since the epoch, a [Z];
      [timedelta(seconds=s)] is [s * 1000000].
    - The dictionary [RateLimiter.requests] is a [gmap string (list Z)];
      [datetime.now()] is an argument of [is_allowed]. *)

From Stdlib Require Import ZArith String Ascii List Bool Lia.
From stdpp Require Import base gmap strings list sorting.

Local Open Scope Z_scope.

(** ** security_config.py: SecurityConfig *)

(** The process environment as [SecurityConfig] reads it. [API_KEYS] is read
    again by every [get_api_keys] call; the environment does not change while
    the server runs. *)
Record SecurityConfig := {
  environment : string;          (* os.getenv("ENVIRONMENT", "development") *)
  API_KEYS : string;             (* os.getenv("API_KEYS", "") *)
  rate_limit_requests : Z;       (* int(os.getenv("RATE_LIMIT_REQUESTS", "100")) *)
  rate_limit_window : Z          (* int(os.getenv("RATE_LIMIT_WINDOW", "3600")) *)
}.

Definition timedelta_seconds (s : Z) : Z := s * 1000000.

(** ** security_config.py: RateLimiter *)

Section RateLimiter.
Variable cfg : SecurityConfig.

(** [RateLimiter.is_allowed], with the clock reading and the dictionary
    passed in and the updated dictionary returned. *)
Definition is_allowed (now : Z) (client_ip : string)
    (requests : gmap string (list Z)) : bool * gmap string (list Z) :=
  let window_start := now - timedelta_seconds (rate_limit_window cfg) in
  let cleaned :=
    match requests !! client_ip with
    | Some l => filter (fun req_time => window_start < req_time) l
    | None => []
    end in
  if rate_limit_requests cfg <=? Z.of_nat (length cleaned)
  then (false, <[client_ip := cleaned]> requests)
  else (true, <[client_ip := cleaned ++ [now]]> requests).

(** A run of the limiter: the dictionary, and a ghost log of every call
    with its clock reading and its answer. *)
Definition call (s : gmap string (list Z) * list (string * Z * bool))
    (e : string * Z) : gmap string (list Z) * list (string * Z * bool) :=
  let '(b, requests') := is_allowed (snd e) (fst e) (fst s) in
  (requests', snd s ++ [(fst e, snd e, b)]).

Definition exec_from (s : gmap string (list Z) * list (string * Z * bool))
    (tr : list (string * Z)) : gmap string (list Z) * list (string * Z * bool) :=
  fold_left call tr s.

(** [RateLimiter.__init__] starts with an empty dictionary. *)
Definition exec (tr : list (string * Z)) :
    gmap string (list Z) * list (string * Z * bool) :=
  exec_from (∅, []) tr.

(** The clock readings of the calls of [c] that returned [True]. *)
Fixpoint admitted (c : string) (log : list (string * Z * bool)) : list Z :=
  match log with
  | [] => []
  | (d, t, b) :: log' =>
      if b && bool_decide (d = c) then t :: admitted c log' else admitted c log'
  end.

(** The algorithm as the specification words it: entries strictly older
    than the window start are dropped, all others are kept. *)
Definition is_allowed_as_specified (now : Z) (client_ip : string)
    (requests : gmap string (list Z)) : bool * gmap string (list Z) :=
  let window_start := now - timedelta_seconds (rate_limit_window cfg) in
  let remaining :=
    filter (fun req_time => ¬ (req_time < window_start))
           (default [] (requests !! client_ip)) in
  if rate_limit_requests cfg <=? Z.of_nat (length remaining)
  then (false, <[client_ip := remaining]> requests)
  else (true, <[client_ip := remaining ++ [now]]> requests).
End RateLimiter.

(** Clock readings taken one after the other never decrease. *)
Definition monotone (tr : list (string * Z)) : Prop :=
  StronglySorted Z.le (map snd tr).

(** The trailing interval of [w] microseconds that ends at [t]. *)
Definition in_window (w t x : Z) : Prop := t - w < x ∧ x ≤ t.

#[local] Instance in_window_dec w t x : Decision (in_window w t x).
Proof. unfold in_window. apply _. Defined.

(** The same interval with its older end included, as the specification
    writes the window: [t - w, t]. *)
Definition in_closed_window (w t x : Z) : Prop := t - w ≤ x ∧ x ≤ t.

#[local] Instance in_closed_window_dec w t x : Decision (in_closed_window w t x).
Proof. unfold in_closed_window. apply _. Defined.

Definition example_cfg (q w : Z) : SecurityConfig :=
  {| environment := "production"; API_KEYS := ""; rate_limit_requests := q;
     rate_limit_window := w |}.

(** ** Python string operations, on code points below 256 *)

(** [str.isspace] for one character: U+0009 to U+000D, U+001C to U+0020,
    U+0085 and U+00A0. *)
Definition isspace (c : ascii) : bool :=
  let n := N_of_ascii c in
  (((9 <=? n) && (n <=? 13)) || ((28 <=? n) && (n <=? 32)) ||
   (n =? 133) || (n =? 160))%N.

Fixpoint lstrip (s : string) : string :=
  match s with
  | EmptyString => EmptyString
  | String c s' => if isspace c then lstrip s' else s
  end.

Fixpoint rstrip (s : string) : string :=
  match s with
  | EmptyString => EmptyString
  | String c s' =>
      match rstrip s' with
      | EmptyString => if isspace c then EmptyString else String c EmptyString
      | r => String c r
      end
  end.

(** [str.strip()] *)
Definition strip (s : string) : string := rstrip (lstrip s).

(** [str.lower()] for one character: A to Z, and U+00C0 to U+00DE without
    the multiplication sign U+00D7, move up by 32. *)
Definition lower_char (c : ascii) : ascii :=
  let n := N_of_ascii c in
  if (((65 <=? n) && (n <=? 90)) ||
      ((192 <=? n) && (n <=? 222) && negb (n =? 215)))%N
  then ascii_of_N (n + 32) else c.

Fixpoint lower (s : string) : string :=
  match s with
  | EmptyString => EmptyString
  | String c s' => String (lower_char c) (lower s')
  end.

Fixpoint startswith (p s : string) : bool :=
  match p, s with
  | EmptyString, _ => true
  | String a p', String b s' => Ascii.eqb a b && startswith p' s'
  | String _ _, EmptyString => false
  end.

(** [p in s] for two strings *)
Fixpoint contains (p s : string) : bool :=
  startswith p s ||
  match s with
  | EmptyString => false
  | String _ s' => contains p s'
  end.

(** [s.split(sep)] for a one-character separator *)
Fixpoint split (sep : ascii) (s : string) : list string :=
  match s with
  | EmptyString => [EmptyString]
  | String c s' =>
      if Ascii.eqb c sep then EmptyString :: split sep s'
      else match split sep s' with
           | w :: ws => String c w :: ws
           | [] => [String c EmptyString]
           end
  end.

(** Truth value of a string: the empty string is false. *)
Definition truthy (s : string) : bool := negb (String.eqb s "").

(** The Python values a caller can hand to [validate_query_input]. *)
Inductive pyval :=
  | PyNone
  | PyStr (s : string)
  | PyInt (n : Z).

(** ** security_config.py: credentials *)

(** [SecurityConfig.get_api_keys] *)
Definition get_api_keys (cfg : SecurityConfig) : list string :=
  List.filter truthy (map strip (split "," (API_KEYS cfg))).

(** [SecurityConfig.validate_api_key] *)
Definition validate_api_key (cfg : SecurityConfig) (api_key : string) : bool :=
  match get_api_keys cfg with
  | [] => true
  | valid_keys => existsb (String.eqb api_key) valid_keys
  end.

(** What the authenticator reads of a request. [bearer] is what FastAPI's
    [HTTPBearer.__call__] returns when built with [auto_error=False], as
    [main.py] builds it: the scheme and token of a well-formed Bearer
    [Authorization] header, or nothing. *)
Record Request := {
  client_host : string;
  method : string;
  path : string;
  x_api_key : option string;
  bearer : option (string * string);
  query : option string
}.

Inductive AuthOutcome :=
  | AuthNone
  | AuthCredentials (scheme credentials : string)
  | AuthHTTPException (status_code : Z) (detail : string).

(** [APIKeyAuth.__call__] *)
Definition APIKeyAuth_call (cfg : SecurityConfig) (request : Request) : AuthOutcome :=
  if String.eqb (environment cfg) "development" &&
     match get_api_keys cfg with [] => true | _ => false end
  then AuthNone
  else
    let check_bearer :=
      match bearer request with
      | Some (scheme, token) =>
          if validate_api_key cfg token then AuthCredentials scheme token
          else AuthHTTPException 401 "Invalid or missing API key"
      | None => AuthHTTPException 401 "Invalid or missing API key"
      end in
    match x_api_key request with
    | Some api_key =>
        if truthy api_key && validate_api_key cfg api_key
        then AuthCredentials "ApiKey" api_key
        else check_bearer
    | None => check_bearer
    end.

(** ** security_config.py: headers and input validation *)

Definition get_security_headers : list (string * string) :=
  [ ("X-Content-Type-Options", "nosniff");
    ("X-Frame-Options", "DENY");
    ("X-XSS-Protection", "1; mode=block");
    ("Strict-Transport-Security", "max-age=31536000; includeSubDomains");
    ("Content-Security-Policy", "default-src 'self'");
    ("Referrer-Policy", "strict-origin-when-cross-origin") ].

Definition malicious_patterns : list string :=
  [ "javascript:"; "<script"; "eval("; "exec("; "import("; "__import__";
    "subprocess"; "os.system"; "shell=True" ].

(** The loop over the patterns: false at the first one found. *)
Fixpoint no_pattern_in (patterns : list string) (query_lower : string) : bool :=
  match patterns with
  | [] => true
  | pattern :: rest =>
      if contains pattern query_lower then false else no_pattern_in rest query_lower
  end.

Definition validate_query_input (query : pyval) : bool :=
  match query with
  | PyStr q =>
      if negb (truthy q) then false
      else if (1000 <? String.length q)%nat then false
      else no_pattern_in malicious_patterns (lower q)
  | PyNone | PyInt _ => false
  end.

(** ** main.py *)

(** [QueryRequest]: the [query] field must be a string (a body without one
    is refused by the model before any validator runs), and the validator
    [validate_query] either raises, which the framework answers with 422, or
    returns the stripped text. [None] stands for the refusal. *)
Definition QueryRequest_validate_query (v : string) : option string :=
  if negb (validate_query_input (PyStr v)) then None else Some (strip v).

Definition QueryRequest_parse (field : option string) : option string :=
  match field with
  | None => None
  | Some v => QueryRequest_validate_query v
  end.

Inductive LogRecord :=
  | LogInfo (msg : string)
  | LogWarning (msg : string)
  | LogError (msg : string)
  | LogResponse (status_code : Z).

(** A JSON object with text fields. *)
Definition json : Type := list (string * string).

Record Response := {
  status_code : Z;
  headers : list (string * string);
  content : json
}.

(** Starlette keeps header names in lower case and looks them up without
    regard to case. *)
Fixpoint headers_set (name value : string) (hs : list (string * string)) :
    list (string * string) :=
  match hs with
  | [] => [(lower name, value)]
  | (n, v) :: hs' =>
      if String.eqb n (lower name)
      then (n, value) :: List.filter (fun kv => negb (String.eqb (fst kv) (lower name))) hs'
      else (n, v) :: headers_set name value hs'
  end.

Fixpoint headers_get (name : string) (hs : list (string * string)) : option string :=
  match hs with
  | [] => None
  | (n, v) :: hs' => if String.eqb n (lower name) then Some v else headers_get name hs'
  end.

Definition JSONResponse (status : Z) (body : json) : Response :=
  {| status_code := status;
     headers := [("content-type", "application/json")];
     content := body |}.

(** The mutable state of the process: the rate limiter's dictionary and the
    log. *)
Record World := {
  requests : gmap string (list Z);
  log : list LogRecord
}.

Definition logged (r : LogRecord) (w : World) : World :=
  {| requests := requests w; log := log w ++ [r] |}.

(** A request handler: the clock reading at arrival, the request and the
    state give a response and the next state. *)
Definition Handler : Type := Z → Request → World → Response * World.

Inductive EndpointOutcome :=
  | Returned (result : json)
  | RaisedHTTPException (status : Z) (detail : string).

Section App.
Variable cfg : SecurityConfig.
(** [cai.run_crew_query], the external processor: a result, or the text
    of the exception it raised. *)
Variable run_crew_query : string → json + string.
(** [SecurityConfig.hash_sensitive_data]: eight hex digits of SHA-256. *)
Variable hash_sensitive_data : string → string.
(** Starlette's [CORSMiddleware] as [main.py] configures it. *)
Variable CORSMiddleware : Handler → Handler.

(** [query_crew_endpoint] *)
Definition query_crew_endpoint (request_query : string) (w : World) :
    EndpointOutcome * World :=
  let w1 := logged (LogInfo ("Processing marketing query: " ++
                              hash_sensitive_data request_query)) w in
  match run_crew_query request_query with
  | inl result =>
      (Returned result, logged (LogInfo "Marketing query processed successfully") w1)
  | inr e =>
      let error_msg := ("Error processing marketing query: " ++ e)%string in
      (RaisedHTTPException 500 error_msg, logged (LogError error_msg) w1)
  end.

(** [global_exception_handler], without its timestamp field *)
Definition global_exception_handler (exc : string) (w : World) : Response * World :=
  (JSONResponse 500 [("error", "Internal server error");
                     ("detail", "An unexpected error occurred")],
   logged (LogError ("Unhandled exception: " ++ exc)) w).

(** FastAPI answers an [HTTPException] with its status and its detail. *)
Definition http_exception_response (status : Z) (detail : string) : Response :=
  JSONResponse status [("detail", detail)].

(** The route [POST /crewai] as FastAPI runs it: the dependency
    [api_key_auth] first, then the body model, then the endpoint. *)
Definition crewai_route : Handler := fun now request w =>
  match APIKeyAuth_call cfg request with
  | AuthHTTPException status detail => (http_exception_response status detail, w)
  | AuthNone | AuthCredentials _ _ =>
      match QueryRequest_parse (query request) with
      | None => (JSONResponse 422 [("detail", "Invalid query input")], w)
      | Some q =>
          match query_crew_endpoint q w with
          | (Returned result, w') => (JSONResponse 200 result, w')
          | (RaisedHTTPException status detail, w') =>
              (http_exception_response status detail, w')
          end
      end
  end.

(** [add_security_headers] *)
Definition add_security_headers (call_next : Handler) : Handler :=
  fun now request w =>
    let '(response, w') := call_next now request w in
    ({| status_code := status_code response;
        headers := fold_left (fun hs kv => headers_set (fst kv) (snd kv) hs)
                             get_security_headers (headers response);
        content := content response |}, w').

(** [rate_limit_middleware] *)
Definition rate_limit_middleware (call_next : Handler) : Handler :=
  fun now request w =>
    let client_ip := client_host request in
    let '(allowed, requests') := is_allowed cfg now client_ip (requests w) in
    let w1 := {| requests := requests'; log := log w |} in
    if negb allowed then
      (JSONResponse 429 [("error", "Rate limit exceeded");
                         ("detail", "Too many requests")],
       logged (LogWarning ("Rate limit exceeded for IP: " ++
                            hash_sensitive_data client_ip)) w1)
    else call_next now request w1.

(** [log_requests], without the elapsed time *)
Definition log_requests (call_next : Handler) : Handler :=
  fun now request w =>
    let w1 := logged (LogInfo ("Request: " ++ method request ++ " " ++
                                path request)) w in
    let '(response, w2) := call_next now request w1 in
    (response, logged (LogResponse (status_code response)) w2).

(** Starlette's [add_middleware] puts the new middleware at the head of
    the list, and [build_middleware_stack] wraps the application in the
    list from its last entry to its first: the head is outermost. *)
Definition add_middleware (m : Handler → Handler)
    (user_middleware : list (Handler → Handler)) : list (Handler → Handler) :=
  m :: user_middleware.

Definition build_middleware_stack (user_middleware : list (Handler → Handler))
    (router : Handler) : Handler :=
  fold_right (fun m app => m app) router user_middleware.

(** The middleware of [main.py], registered in the order of the file. *)
Definition user_middleware : list (Handler → Handler) :=
  add_middleware log_requests
    (add_middleware rate_limit_middleware
       (add_middleware add_security_headers
          (add_middleware CORSMiddleware []))).

(** The application serving [POST /crewai]. *)
Definition app : Handler := build_middleware_stack user_middleware crewai_route.
End App.

(** An outcome of the authenticator other than the 401 exception lets the
    request through. *)
Definition admits (o : AuthOutcome) : bool :=
  match o with
  | AuthNone | AuthCredentials _ _ => true
  | AuthHTTPException _ _ => false
  end.

Definition production_no_keys : SecurityConfig :=
  {| environment := "production"; API_KEYS := "";
     rate_limit_requests := 100; rate_limit_window := 3600 |}.

Definition development_no_keys : SecurityConfig :=
  {| environment := "development"; API_KEYS := "";
     rate_limit_requests := 100; rate_limit_window := 3600 |}.

Definition crewai_request (key : option string) (token : option (string * string))
    (q : option string) : Request :=
  {| client_host := "203.0.113.7"; method := "POST"; path := "/crewai";
     x_api_key := key; bearer := token; query := q |}.

(** A query of exactly 1000 characters. *)
Definition thousand_a : string := string_of_list_ascii (repeat "a"%char 1000).

(** The body the specification gives every 500 response, and what it asks
    of the response to a failure of the processor with exception text
    [exc]. *)
Definition generic_error_body : json :=
  [("error", "Internal server error"); ("detail", "An unexpected error occurred")].

Definition sanitized_failure (exc : string) (r : Response) : Prop :=
  status_code r = 500 ∧ content r = generic_error_body ∧
  ∀ k v, (k, v) ∈ content r → contains exc v = false.

(** [CORSMiddleware] for a request without [Origin] header hands the request
    on and the response back unchanged. *)
Definition cors_no_origin (call_next : Handler) : Handler := call_next.

Definition failing_processor (q : string) : json + string :=
  inr "CrewAI processing error".

Definition fresh_world : World := {| requests := ∅; log := [] |}.

(** ** main.py: the health endpoint *)

Definition required_vars : list string :=
  ["OPENAI_API_KEY"; "NEO4J_URI"; "NEO4J_USERNAME"; "NEO4J_PASSWORD"].

(** [not os.getenv(var)]: the variable is unset or empty. *)
Definition env_missing (getenv : string → option string) (var : string) : bool :=
  match getenv var with
  | Some value => negb (truthy value)
  | None => true
  end.

(** [sep.join(l)] *)
Fixpoint join (sep : string) (l : list string) : string :=
  match l with
  | [] => EmptyString
  | [x] => x
  | x :: rest => (x ++ sep ++ join sep rest)%string
  end.

(** How an f-string prints a list of strings that hold no quote, backslash
    or control character, as the names of [required_vars]. *)
Definition repr_list (l : list string) : string :=
  ("[" ++ join ", " (map (fun x => "'" ++ x ++ "'") l) ++ "]")%string.

(** [health_check]; [timestamp] is [datetime.now().isoformat()]. *)
Definition health_check (getenv : string → option string) (timestamp : string)
    (w : World) : EndpointOutcome * World :=
  let missing_vars := List.filter (env_missing getenv) required_vars in
  match missing_vars with
  | _ :: _ =>
      (RaisedHTTPException 503
         ("Service unavailable - missing environment variables: " ++
          repr_list missing_vars),
       logged (LogWarning
                 ("Health check failed - missing environment variables: " ++
                  repr_list missing_vars)) w)
  | [] =>
      (Returned
         [("status", "healthy");
          ("message",
           "Server is running and ready to process marketing analytics queries");
          ("timestamp", timestamp);
          ("environment", default "development" (getenv "ENVIRONMENT"))],
       w)
  end.

(** ** main.py: the static front end *)

Fixpoint endswith_char (c : ascii) (s : string) : bool :=
  match s with
  | EmptyString => false
  | String a EmptyString => Ascii.eqb a c
  | String _ s' => endswith_char c s'
  end.

(** [os.path.join(a, b)] on POSIX: an absolute [b] replaces [a]. *)
Definition os_path_join (a b : string) : string :=
  if startswith "/" b then b
  else if negb (truthy a) || endswith_char "/" a then (a ++ b)%string
  else (a ++ "/" ++ b)%string.

Definition static_dir : string := "/app/static".

Inductive StaticOutcome :=
  | FileResponse (file : string)
  | NotFound404.

(** [serve_frontend_routes]; [exists_] and [isfile] are [os.path.exists] and
    [os.path.isfile] on the server's file system. *)
Definition serve_frontend_routes (exists_ isfile : string → bool) (path : string) :
    StaticOutcome :=
  if existsb (fun prefix => startswith prefix path)
             ["api/"; "docs"; "health"; "crewai"]
  then NotFound404
  else
    let file_path := os_path_join static_dir path in
    if exists_ file_path && isfile file_path then FileResponse file_path
    else
      let index_path := os_path_join static_dir "index.html" in
      if exists_ index_path then FileResponse index_path else NotFound404.

(** Examples used below. *)
Definition keyed_cfg : SecurityConfig :=
  {| environment := "production"; API_KEYS := " alpha , beta,,";
     rate_limit_requests := 2; rate_limit_window := 60 |}.

Definition echo_processor (q : string) : json + string :=
  inl [("result", q); ("status", "success")].

Definition env_all_set (var : string) : option string :=
  if existsb (String.eqb var) required_vars then Some "x" else None.

Definition env_no_password (var : string) : option string :=
  if String.eqb var "NEO4J_PASSWORD" then Some ""
  else if existsb (String.eqb var) required_vars then Some "x" else None.

Definition only_index_exists (file : string) : bool :=
  String.eqb file "/app/static/index.html".

Definition passwd_exists (file : string) : bool :=
  String.eqb file "/etc/passwd".

(** * Properties of the rate limiter *)

Section RateLimiterFacts.
Variable cfg : SecurityConfig.
Local Abbreviation W := (timedelta_seconds (rate_limit_window cfg)).
Local Abbreviation Q := (rate_limit_requests cfg).

Lemma exec_snoc tr e : exec cfg (tr ++ [e]) = call cfg (exec cfg tr) e.
Proof. unfold exec, exec_from. by rewrite fold_left_app. Qed.

Lemma admitted_app c l1 l2 : admitted c (l1 ++ l2) = admitted c l1 ++ admitted c l2.
Proof.
  induction l1 as [|[[d t] b] l1 IH]; simpl; [done|].
  destruct (b && bool_decide (d = c)); simpl; by rewrite IH.
Qed.

Lemma is_allowed_other now c d st :
  d ≠ c → snd (is_allowed cfg now c st) !! d = st !! d.
Proof.
  intros Hne. unfold is_allowed.
  destruct (Q <=? _); simpl; by rewrite lookup_insert_ne.
Qed.

Lemma is_allowed_same now c st :
  let cleaned := filter (fun t => now - W < t) (default [] (st !! c)) in
  is_allowed cfg now c st =
    if Q <=? Z.of_nat (length cleaned)
    then (false, <[c := cleaned]> st)
    else (true, <[c := cleaned ++ [now]]> st).
Proof. unfold is_allowed. by destruct (st !! c). Qed.

Lemma filter_length_mono (P1 P2 : Z → Prop)
    `{!∀ x, Decision (P1 x), !∀ x, Decision (P2 x)} (l : list Z) :
  (∀ x, P1 x → P2 x) → (length (filter P1 l) ≤ length (filter P2 l))%nat.
Proof.
  intros HP. rewrite <- (list_filter_filter_l P1 P2 l HP). apply length_filter.
Qed.

Lemma monotone_snoc tr c now :
  monotone (tr ++ [(c, now)]) ↔ monotone tr ∧ ∀ e, e ∈ tr → snd e ≤ now.
Proof.
  unfold monotone. rewrite map_app, StronglySorted_app. simpl. split.
  - intros (Hle & Htr & _). split; [done|]. intros e He.
    apply Hle; [|apply list_elem_of_singleton; done].
    apply list_elem_of_In, in_map, list_elem_of_In, He.
  - intros (Htr & Hle). split_and!; [|done|repeat constructor].
    intros x1 x2 Hx1 ->%list_elem_of_singleton.
    apply list_elem_of_In, in_map_iff in Hx1 as (e & <- & He).
    apply Hle, list_elem_of_In, He.
Qed.

(** Every stored timestamp is the clock reading of a call of its client. *)
Lemma stored_in_trace tr c l t :
  fst (exec cfg tr) !! c = Some l → t ∈ l → (c, t) ∈ tr.
Proof.
  revert c l t. induction tr as [|[d n] tr IH] using rev_ind; intros c l t.
  - unfold exec, exec_from; simpl. by rewrite lookup_empty.
  - rewrite exec_snoc. unfold call. simpl.
    destruct (is_allowed cfg n d (exec cfg tr).1) as [b st'] eqn:E. simpl.
    rewrite is_allowed_same in E. simpl in E.
    intros Hl Ht. rewrite elem_of_app, list_elem_of_singleton.
    destruct (decide (d = c)) as [->|Hne].
    + destruct (Q <=? _); simplify_eq; rewrite lookup_insert_eq in Hl;
        simplify_eq.
      * apply list_elem_of_filter in Ht as [_ Ht]. left.
        destruct ((exec cfg tr).1 !! c) eqn:E'; simpl in Ht;
          [by eapply IH|by apply elem_of_nil in Ht].
      * apply elem_of_app in Ht as [Ht| ->%list_elem_of_singleton]; [|by right].
        apply list_elem_of_filter in Ht as [_ Ht]. left.
        destruct ((exec cfg tr).1 !! c) eqn:E'; simpl in Ht;
          [by eapply IH|by apply elem_of_nil in Ht].
    + left. apply (IH c l t); [|done].
      destruct (Q <=? _); simplify_eq; by rewrite lookup_insert_ne in Hl.
Qed.

(** Every admitted reading is the clock reading of a call of its client. *)
Lemma admitted_in_trace tr c t :
  t ∈ admitted c (snd (exec cfg tr)) → (c, t) ∈ tr.
Proof.
  revert t. induction tr as [|[d n] tr IH] using rev_ind; intros t.
  - unfold exec, exec_from; simpl. by intros ?%elem_of_nil.
  - rewrite exec_snoc. unfold call. simpl.
    destruct (is_allowed cfg n d (exec cfg tr).1) as [b st']. simpl.
    rewrite admitted_app, !elem_of_app. simpl.
    intros [Ht|Ht]; [left; by apply IH|right].
    destruct b; simpl in Ht; [|by apply elem_of_nil in Ht].
    case_bool_decide; [|by apply elem_of_nil in Ht].
    apply list_elem_of_singleton in Ht. subst. by apply list_elem_of_singleton.
Qed.

(** Under a clock that never goes back, what a client's stored window and
    its admitted calls have inside the current window is the same. *)
Lemma window_agrees tr c now :
  monotone tr → (∀ e, e ∈ tr → snd e ≤ now) →
  filter (fun t => now - W < t) (default [] (fst (exec cfg tr) !! c)) =
  filter (fun t => now - W < t) (admitted c (snd (exec cfg tr))).
Proof.
  revert c now. induction tr as [|[d n] tr IH] using rev_ind; intros c now.
  - unfold exec, exec_from; simpl. by rewrite lookup_empty.
  - intros [Hmono Hle]%monotone_snoc Hnow.
    assert (Hn : n ≤ now) by (apply (Hnow (d, n)), elem_of_app; right;
                               by apply list_elem_of_singleton).
    assert (Hnow' : ∀ e, e ∈ tr → snd e ≤ now).
    { intros e He. apply Hnow, elem_of_app. by left. }
    rewrite exec_snoc. unfold call. simpl.
    destruct (is_allowed cfg n d (exec cfg tr).1) as [b st'] eqn:E. simpl.
    rewrite is_allowed_same in E. simpl in E. rewrite admitted_app. simpl.
    destruct (decide (d = c)) as [->|Hne].
    + rewrite bool_decide_true by done. rewrite andb_true_r.
      destruct (Q <=? _); simplify_eq; rewrite lookup_insert_eq; simpl.
      * rewrite app_nil_r, list_filter_filter_l by lia. by apply IH.
      * rewrite !filter_app, list_filter_filter_l by lia.
        f_equal. by apply IH.
    + rewrite bool_decide_false by done. rewrite andb_false_r, app_nil_r.
      rewrite <- (IH c now Hmono Hnow').
      destruct (Q <=? _); simplify_eq; by rewrite lookup_insert_ne.
Qed.

Lemma exec_from_others s tr B :
  (∀ e, e ∈ tr → fst e ≠ B) → fst (exec_from cfg s tr) !! B = fst s !! B.
Proof.
  revert s. induction tr as [|[d n] tr IH]; intros s Hne; [done|].
  unfold exec_from in *. simpl. rewrite IH.
  - unfold call. simpl.
    pose proof (is_allowed_other n d B s.1) as Ho.
    destruct (is_allowed cfg n d s.1); simpl in *. apply Ho.
    intros Heq. apply (Hne (d, n)); [apply elem_of_cons; by left|by symmetry].
  - intros e He. apply Hne, elem_of_cons. by right.
Qed.

Lemma is_allowed_depends_on_own_window now c st1 st2 :
  st1 !! c = st2 !! c →
  fst (is_allowed cfg now c st1) = fst (is_allowed cfg now c st2).
Proof.
  intros Heq. rewrite !is_allowed_same. simpl. rewrite Heq.
  by destruct (Q <=? _).
Qed.

(** C4, as amended: [is_allowed] keeps exactly the entries of the calling
    identity that are strictly later than [now - window] (an entry equal to
    the window start is dropped with the older ones), in their order, and
    leaves every other identity's window as it was; when the kept entries
    number at least the quota it returns false and stores the kept entries
    without the current time, otherwise it stores them followed by the
    current time and returns true. *)
Theorem is_allowed_keeps_strictly_later now c st :
  let window_start := now - W in
  let kept := filter (fun t => ¬ (t ≤ window_start)) (default [] (st !! c)) in
  (∀ d, d ≠ c → snd (is_allowed cfg now c st) !! d = st !! d) ∧
  (Q ≤ Z.of_nat (length kept) →
     fst (is_allowed cfg now c st) = false ∧
     snd (is_allowed cfg now c st) !! c = Some kept) ∧
  (Z.of_nat (length kept) < Q →
     fst (is_allowed cfg now c st) = true ∧
     snd (is_allowed cfg now c st) !! c = Some (kept ++ [now])).
Proof.
  intros ws kept. split; [intros d Hd; by apply is_allowed_other|].
  rewrite is_allowed_same. simpl.
  assert (Hk : filter (fun t => now - W < t) (default [] (st !! c)) = kept).
  { apply list_filter_iff. intros x. unfold ws. lia. }
  rewrite Hk. split; intros HQ.
  - rewrite (proj2 (Z.leb_le _ _) HQ). simpl. by rewrite lookup_insert_eq.
  - rewrite (proj2 (Z.leb_gt _ _) HQ). simpl. by rewrite lookup_insert_eq.
Qed.

(** C10: with a quota of at least one, no identity's stored window ever
    holds more than [rate_limit_requests] timestamps, whatever calls were
    made since the limiter was created. *)
Theorem stored_window_at_most_quota tr c l :
  1 ≤ Q → fst (exec cfg tr) !! c = Some l → Z.of_nat (length l) ≤ Q.
Proof.
  intros HQ. revert c l. induction tr as [|[d n] tr IH] using rev_ind; intros c l.
  - unfold exec, exec_from; simpl. by rewrite lookup_empty.
  - rewrite exec_snoc. unfold call. simpl.
    destruct (is_allowed cfg n d (exec cfg tr).1) as [b st'] eqn:E. simpl.
    rewrite is_allowed_same in E. simpl in E.
    destruct (decide (d = c)) as [->|Hne].
    + destruct (Q <=? _) eqn:EQ; simplify_eq; rewrite lookup_insert_eq;
        intros ?; simplify_eq.
      * pose proof (length_filter (fun t => n - W < t)
                      (default [] ((exec cfg tr).1 !! c))) as Hlen.
        destruct ((exec cfg tr).1 !! c) as [l0|] eqn:E'; simpl in *; [|lia].
        specialize (IH c l0 E'). lia.
      * apply Z.leb_gt in EQ. rewrite length_app. simpl. lia.
    + destruct (Q <=? _); simplify_eq; rewrite lookup_insert_ne by done;
        apply IH.
Qed.

(** C8: for two distinct identities A and B, whatever calls A has made, at
    whatever times and from whatever state of the limiter, B's window is
    what it was and B's next call gets the answer it would have got
    without them. *)
Theorem identities_do_not_share_quota A B st log ts now :
  A ≠ B →
  let st' := fst (exec_from cfg (st, log) (map (pair A) ts)) in
  st' !! B = st !! B ∧
  fst (is_allowed cfg now B st') = fst (is_allowed cfg now B st).
Proof.
  intros Hne st'.
  assert (Heq : st' !! B = st !! B).
  { unfold st'. rewrite exec_from_others; [done|].
    intros e He. apply list_elem_of_In, in_map_iff in He as (t & <- & _). done. }
  split; [done|]. by apply is_allowed_depends_on_own_window.
Qed.

(** C7: when the clock never goes back and the window length is not
    negative, right after a call of identity [c] at time [now] every
    timestamp stored for [c] lies in [now - window, now], and the stored
    window of every other identity, stale entries included, is what it was
    before the call. *)
Theorem stored_window_within_bounds tr c now :
  0 ≤ rate_limit_window cfg →
  monotone (tr ++ [(c, now)]) →
  let before := fst (exec cfg tr) in
  let after := fst (exec cfg (tr ++ [(c, now)])) in
  (∃ l, after !! c = Some l ∧ ∀ t, t ∈ l → now - W ≤ t ∧ t ≤ now) ∧
  (∀ d, d ≠ c → after !! d = before !! d).
Proof.
  intros HW [Hmono Hle]%monotone_snoc before after.
  unfold after, before. rewrite exec_snoc. unfold call. simpl.
  pose proof (is_allowed_other now c) as Ho.
  destruct (is_allowed cfg now c (exec cfg tr).1) as [b st'] eqn:E. simpl.
  split; [|intros d Hd; specialize (Ho d (exec cfg tr).1 Hd);
           by rewrite E in Ho].
  rewrite is_allowed_same in E. simpl in E.
  assert (Hold : ∀ t, t ∈ filter (fun t => now - W < t)
                   (default [] ((exec cfg tr).1 !! c)) → now - W ≤ t ∧ t ≤ now).
  { intros t [Hlt Ht]%list_elem_of_filter. split; [lia|].
    destruct ((exec cfg tr).1 !! c) as [l0|] eqn:E'; simpl in Ht;
      [|by apply elem_of_nil in Ht].
    apply (Hle (c, t)). by eapply stored_in_trace. }
  destruct (Q <=? _); simplify_eq; rewrite lookup_insert_eq;
    eexists; (split; [done|]); [done|].
  intros t [Ht| ->%list_elem_of_singleton]%elem_of_app; [by apply Hold|].
  unfold timedelta_seconds. lia.
Qed.

Lemma admitted_snoc c log d n b :
  admitted c (log ++ [(d, n, b)]) =
  admitted c log ++ (if b && bool_decide (d = c) then [n] else []).
Proof. rewrite admitted_app. simpl. by destruct (b && _). Qed.

(** Within any trailing interval the admitted calls of one identity
    number at most the quota. *)
Lemma admitted_window_bound tr :
  0 ≤ Q → monotone tr →
  ∀ c t, Z.of_nat (length (filter (in_window W t)
                             (admitted c (snd (exec cfg tr))))) ≤ Q.
Proof.
  intros HQ. induction tr as [|[d n] tr IH] using rev_ind.
  - intros _ c t. unfold exec, exec_from; simpl. lia.
  - intros [Hmono Hle]%monotone_snoc c t. specialize (IH Hmono).
    rewrite exec_snoc. unfold call. simpl.
    pose proof (window_agrees tr d n Hmono Hle) as Hag.
    destruct (is_allowed cfg n d (exec cfg tr).1) as [b st'] eqn:E. simpl.
    rewrite is_allowed_same in E. simpl in E.
    rewrite admitted_snoc, filter_app, length_app.
    destruct (Q <=? _) eqn:EQ; simplify_eq; simpl.
    { specialize (IH c t). lia. }
    case_bool_decide as Hdc; simpl; [subst d|specialize (IH c t); lia].
    rewrite filter_cons. case_decide as Hin; simpl; [|specialize (IH c t); lia].
    apply Z.leb_gt in EQ. rewrite Hag in EQ.
    pose proof (filter_length_mono (in_window W t) (fun x => n - W < x)
                  (admitted c (exec cfg tr).2)) as Hm.
    unfold in_window in *. lapply Hm; [lia|]. intros x. lia.
Qed.

(** Under a clock that never goes back the latest admitted call of an
    identity carries its largest admitted reading. *)
Lemma admitted_below_last tr c t tl :
  monotone tr → t ∈ admitted c (snd (exec cfg tr)) →
  last (admitted c (snd (exec cfg tr))) = Some tl → t ≤ tl.
Proof.
  revert t tl. induction tr as [|[d n] tr IH] using rev_ind; intros t tl.
  - intros _. unfold exec, exec_from; simpl. by intros ?%elem_of_nil.
  - intros [Hmono Hle]%monotone_snoc.
    pose proof (admitted_in_trace tr c) as Hin.
    rewrite exec_snoc. unfold call. simpl.
    destruct (is_allowed cfg n d (exec cfg tr).1) as [b st']. simpl.
    rewrite admitted_snoc.
    destruct (b && bool_decide (d = c)).
    + rewrite last_snoc. intros Ht ?; simplify_eq.
      apply elem_of_app in Ht as [Ht| ->%list_elem_of_singleton]; [|lia].
      apply (Hle (c, t)). by apply Hin.
    + rewrite app_nil_r. by apply IH.
Qed.

(** C5, as amended: for every run of the limiter from its creation, with a
    quota of at least one and a clock that never goes back, (1) in no
    trailing interval of [rate_limit_window] seconds that leaves out its
    older end, (t - window, t], do the calls of one identity that returned
    true number more than the quota; (2) a call that finds the quota already
    reached by the admitted calls inside that interval ending at the call is
    rejected; (3) a call that arrives more than the window length after the
    identity's last recorded request is admitted. *)
Theorem sliding_window_quota tr c now :
  1 ≤ Q → monotone (tr ++ [(c, now)]) →
  let recorded := admitted c (snd (exec cfg tr)) in
  (∀ d t, Z.of_nat (length (filter (in_window W t)
             (admitted d (snd (exec cfg (tr ++ [(c, now)])))))) ≤ Q) ∧
  (Q ≤ Z.of_nat (length (filter (in_window W now) recorded)) →
     fst (is_allowed cfg now c (fst (exec cfg tr))) = false) ∧
  ((∀ tl, last recorded = Some tl → tl + W < now) →
     fst (is_allowed cfg now c (fst (exec cfg tr))) = true).
Proof.
  intros HQ Hmono recorded. split_and!.
  - intros d t. apply admitted_window_bound; [lia|done].
  - apply monotone_snoc in Hmono as [Hmono Hle]. intros Hfull.
    rewrite is_allowed_same. simpl. rewrite (window_agrees tr c now Hmono Hle).
    pose proof (filter_length_mono (in_window W now) (fun x => now - W < x)
                  recorded) as Hm.
    lapply Hm; [|unfold in_window; intros x; lia]. intros Hm'.
    fold recorded. by rewrite (proj2 (Z.leb_le _ _)) by lia.
  - apply monotone_snoc in Hmono as [Hmono Hle]. intros Hlate.
    rewrite is_allowed_same. simpl. rewrite (window_agrees tr c now Hmono Hle).
    fold recorded.
    assert (Hnil : filter (fun t => now - W < t) recorded = []).
    { destruct (filter _ recorded) as [|x l] eqn:Ef; [done|exfalso].
      assert (Hx : x ∈ filter (fun t => now - W < t) recorded)
        by (rewrite Ef; apply elem_of_cons; by left).
      apply list_elem_of_filter in Hx as [Hlt Hx].
      destruct (last recorded) as [tl|] eqn:El.
      - pose proof (admitted_below_last tr c x tl Hmono Hx El).
        specialize (Hlate tl eq_refl). lia.
      - apply last_None in El. rewrite El in Hx. by apply elem_of_nil in Hx. }
    rewrite Hnil. simpl. by rewrite (proj2 (Z.leb_gt _ _)) by lia.
Qed.
End RateLimiterFacts.

(** Scenario 1 of the specification: quota 2, window 60 s, one identity. *)
Example scenario_two_per_minute :
  snd (exec (example_cfg 2 60)
         [("A", 0); ("A", 1000000); ("A", 2000000); ("A", 61000000)])
  = [("A", 0, true); ("A", 1000000, true); ("A", 2000000, false);
     ("A", 61000000, true)].
Proof. vm_compute. reflexivity. Qed.

(** An entry exactly one window length old is dropped by the code and kept
    by the algorithm as specified. *)
Example boundary_entry_code :
  is_allowed (example_cfg 1 60) 60000000 "A" {["A" := [0]]}
  = (true, {["A" := [60000000]]}).
Proof. vm_compute. reflexivity. Qed.

Example boundary_entry_specified :
  is_allowed_as_specified (example_cfg 1 60) 60000000 "A" {["A" := [0]]}
  = (false, {["A" := [0]]}).
Proof. vm_compute. reflexivity. Qed.

(** C4, as the claim has it, fails: with quota 1 and a window of 60 s, a
    call at 60 s that finds one entry at 0 s, which is not strictly older
    than the window start, drops it and returns true, where the claim keeps
    it and returns false. *)
Lemma entry_at_window_start_is_dropped :
  ¬ (∀ cfg now c st,
       is_allowed cfg now c st = is_allowed_as_specified cfg now c st).
Proof.
  intros H.
  specialize (H (example_cfg 1 60) 60000000 "A" {["A" := [0]]}).
  rewrite boundary_entry_code, boundary_entry_specified in H.
  discriminate H.
Qed.

Lemma is_allowed_keeps_strictly_later_witness :
  let cfg := example_cfg 1 60 in
  let st : gmap string (list Z) := {["A" := [0]; "B" := [5]]} in
  snd (is_allowed cfg 60000000 "A" st) !! "B" = Some [5] ∧
  fst (is_allowed cfg 60000000 "A" st) = true ∧
  snd (is_allowed cfg 60000000 "A" st) !! "A" = Some [60000000] ∧
  fst (is_allowed cfg 59999999 "A" st) = false ∧
  snd (is_allowed cfg 59999999 "A" st) !! "A" = Some [0].
Proof.
  intros cfg st.
  destruct (is_allowed_keeps_strictly_later cfg 60000000 "A" st)
    as (Hother & _ & Hadmit).
  destruct (is_allowed_keeps_strictly_later cfg 59999999 "A" st)
    as (_ & Hreject & _).
  destruct Hadmit as [Ha1 Ha2]; [vm_compute; reflexivity|].
  destruct Hreject as [Hr1 Hr2]; [vm_compute; discriminate|].
  split_and!.
  - rewrite (Hother "B") by discriminate. vm_compute. reflexivity.
  - exact Ha1.
  - rewrite Ha2. vm_compute. reflexivity.
  - exact Hr1.
  - rewrite Hr2. vm_compute. reflexivity.
Defined.

Lemma stored_window_at_most_quota_witness :
  Z.of_nat (length [0; 1000000]) ≤ rate_limit_requests (example_cfg 2 60).
Proof.
  apply (stored_window_at_most_quota (example_cfg 2 60)
           [("A", 0); ("A", 1000000); ("A", 2000000)] "A" [0; 1000000]).
  - simpl. lia.
  - vm_compute. reflexivity.
Defined.

Lemma identities_do_not_share_quota_witness :
  let st' := fst (exec_from (example_cfg 2 60) (∅, [])
                    (map (pair "A") [0; 1000000; 2000000])) in
  st' !! "B" = (∅ : gmap string (list Z)) !! "B" ∧
  fst (is_allowed (example_cfg 2 60) 3000000 "B" st')
    = fst (is_allowed (example_cfg 2 60) 3000000 "B" ∅).
Proof.
  apply (identities_do_not_share_quota (example_cfg 2 60) "A" "B" ∅ []
           [0; 1000000; 2000000] 3000000).
  discriminate.
Defined.

Lemma stored_window_within_bounds_witness :
  let cfg := example_cfg 2 60 in
  let tr := [("A", 0); ("A", 1000000); ("B", 30000000)] in
  let before := fst (exec cfg tr) in
  let after := fst (exec cfg (tr ++ [("A", 61000000)])) in
  (∃ l, after !! "A" = Some l ∧
        ∀ t, t ∈ l → 61000000 - timedelta_seconds 60 ≤ t ∧ t ≤ 61000000) ∧
  (∀ d, d ≠ "A" → after !! d = before !! d).
Proof.
  apply (stored_window_within_bounds (example_cfg 2 60)
           [("A", 0); ("A", 1000000); ("B", 30000000)] "A" 61000000).
  - simpl. lia.
  - unfold monotone. simpl. repeat constructor; lia.
Defined.

(** C5, as the claim has it, fails for the window with both ends included:
    with quota 1 and a window of 60 s, calls of one identity at 0 s and at
    60 s are both admitted, two admitted calls inside [0 s, 60 s]. *)
Lemma calls_one_window_apart_are_both_admitted :
  ¬ (∀ cfg tr c t,
       1 ≤ rate_limit_requests cfg → monotone tr →
       Z.of_nat (length (filter
                   (in_closed_window (timedelta_seconds (rate_limit_window cfg)) t)
                   (admitted c (snd (exec cfg tr)))))
       ≤ rate_limit_requests cfg).
Proof.
  intros H.
  assert (Hmono : monotone [("A", 0); ("A", 60000000)])
    by (unfold monotone; simpl; repeat constructor; lia).
  specialize (H (example_cfg 1 60) [("A", 0); ("A", 60000000)] "A" 60000000
                ltac:(simpl; lia) Hmono).
  vm_compute in H. by apply H.
Qed.

Lemma sliding_window_quota_witness :
  let cfg := example_cfg 2 60 in
  let tr := [("A", 0); ("A", 1000000)] in
  (∀ d t, Z.of_nat (length (filter (in_window (timedelta_seconds 60) t)
             (admitted d (snd (exec cfg (tr ++ [("A", 2000000)])))))) ≤ 2) ∧
  fst (is_allowed cfg 2000000 "A" (fst (exec cfg tr))) = false ∧
  fst (is_allowed cfg 62000000 "A" (fst (exec cfg tr))) = true.
Proof.
  intros cfg tr.
  assert (H1 : 1 ≤ rate_limit_requests cfg) by (simpl; lia).
  assert (H2 : monotone (tr ++ [("A", 2000000)]))
    by (unfold monotone; simpl; repeat constructor; lia).
  assert (H3 : monotone (tr ++ [("A", 62000000)]))
    by (unfold monotone; simpl; repeat constructor; lia).
  destruct (sliding_window_quota cfg tr "A" 2000000 H1 H2) as (Hcount & Hfull & _).
  destruct (sliding_window_quota cfg tr "A" 62000000 H1 H3) as (_ & _ & Hlate).
  split_and!.
  - exact Hcount.
  - apply Hfull. vm_compute. discriminate.
  - apply Hlate. intros tl Hl. vm_compute in Hl. injection Hl as <-.
    vm_compute. reflexivity.
Defined.

(** * Properties of the authenticator *)

Section AuthenticatorFacts.
Variable cfg : SecurityConfig.

Lemma validate_api_key_no_keys api_key :
  get_api_keys cfg = [] → validate_api_key cfg api_key = true.
Proof. unfold validate_api_key. by intros ->. Qed.

Lemma truthy_true s : s ≠ EmptyString → truthy s = true.
Proof. by destruct s. Qed.
End AuthenticatorFacts.

(** C1: in development with no configured key every request is let through
    without a credential, and in production with no configured key a
    request without credential gets 401; but in production with no
    configured key a request that presents any non-empty header key, or any
    bearer token, is let through with that credential instead of getting
    401. *)
Theorem production_without_keys_accepts_any_credential :
  get_api_keys production_no_keys = [] ∧
  get_api_keys development_no_keys = [] ∧
  (∀ request, APIKeyAuth_call development_no_keys request = AuthNone) ∧
  APIKeyAuth_call production_no_keys (crewai_request None None None)
    = AuthHTTPException 401 "Invalid or missing API key" ∧
  APIKeyAuth_call production_no_keys (crewai_request (Some "not-a-key") None None)
    = AuthCredentials "ApiKey" "not-a-key" ∧
  APIKeyAuth_call production_no_keys
      (crewai_request None (Some ("Bearer", "not-a-token")) None)
    = AuthCredentials "Bearer" "not-a-token".
Proof. by split_and!. Qed.

(** C9, as the claim has it, fails for a header that is present and empty:
    in production with no configured key, and no bearer token, the request
    gets 401. *)
Lemma empty_header_key_is_not_admitted :
  ¬ (∀ cfg request k,
       get_api_keys cfg = [] → x_api_key request = Some k →
       admits (APIKeyAuth_call cfg request) = true).
Proof.
  intros H.
  specialize (H production_no_keys (crewai_request (Some "") None None) ""
                eq_refl eq_refl).
  discriminate H.
Qed.

(** C9, as amended: when no key is configured, [validate_api_key] returns
    true for every key string in every deployment mode, and every request
    whose API-key header carries a non-empty value is admitted: without a
    credential in development, with the header value as its credential in
    any other mode, production included. *)
Theorem no_keys_admits_any_nonempty_header_key cfg request k :
  get_api_keys cfg = [] →
  x_api_key request = Some k →
  k ≠ EmptyString →
  (∀ api_key, validate_api_key cfg api_key = true) ∧
  admits (APIKeyAuth_call cfg request) = true ∧
  APIKeyAuth_call cfg request =
    if String.eqb (environment cfg) "development" then AuthNone
    else AuthCredentials "ApiKey" k.
Proof.
  intros Hkeys Hk Hne.
  assert (Hv : ∀ api_key, validate_api_key cfg api_key = true)
    by (intros; by apply validate_api_key_no_keys).
  split; [done|].
  unfold APIKeyAuth_call. rewrite Hkeys, Hk, Hv, (truthy_true _ Hne).
  by destruct (String.eqb (environment cfg) "development").
Qed.

Lemma no_keys_admits_any_nonempty_header_key_witness :
  (∀ api_key, validate_api_key production_no_keys api_key = true) ∧
  admits (APIKeyAuth_call production_no_keys
            (crewai_request (Some "not-a-key") None None)) = true ∧
  APIKeyAuth_call production_no_keys (crewai_request (Some "not-a-key") None None)
    = AuthCredentials "ApiKey" "not-a-key".
Proof.
  apply (no_keys_admits_any_nonempty_header_key production_no_keys
           (crewai_request (Some "not-a-key") None None) "not-a-key");
    [reflexivity | reflexivity | discriminate].
Defined.

(** * Properties of the query validator *)

Section ValidatorFacts.
Lemma no_pattern_in_found patterns p q :
  p ∈ patterns → contains p q = true → no_pattern_in patterns q = false.
Proof.
  induction patterns as [|p' ps IH]; simpl.
  - by intros ?%elem_of_nil.
  - intros [->|Hin]%elem_of_cons Hc; [by rewrite Hc|].
    destruct (contains p' q); [done|]. by apply IH.
Qed.

Lemma no_pattern_in_clean patterns q :
  (∀ p, p ∈ patterns → contains p q = false) → no_pattern_in patterns q = true.
Proof.
  induction patterns as [|p' ps IH]; simpl; [done|]. intros Hall.
  rewrite (Hall p') by (apply elem_of_cons; by left).
  apply IH. intros p Hp. apply Hall, elem_of_cons. by right.
Qed.

Lemma startswith_chars p s c :
  startswith p s = true →
  c ∈ list_ascii_of_string p → c ∈ list_ascii_of_string s.
Proof.
  revert s. induction p as [|a p IH]; intros s; simpl.
  - by intros _ ?%elem_of_nil.
  - destruct s as [|b s]; [done|]. simpl.
    intros [Hab Hrest]%andb_true_iff. apply Ascii.eqb_eq in Hab as ->.
    intros [->|Hc]%elem_of_cons; apply elem_of_cons; [by left|right].
    by apply IH.
Qed.

Lemma contains_chars p s c :
  contains p s = true →
  c ∈ list_ascii_of_string p → c ∈ list_ascii_of_string s.
Proof.
  induction s as [|b s IH]; simpl.
  - rewrite orb_false_r. apply startswith_chars.
  - intros [Hs|Hc]%orb_true_iff Hin.
    + by apply (startswith_chars p (String b s)).
    + apply elem_of_cons. right. by apply IH.
Qed.

Lemma lower_char_not_upper_T c : lower_char c ≠ "T"%char.
Proof. destruct c as [[] [] [] [] [] [] [] []]; vm_compute; discriminate. Qed.

Lemma lower_has_no_upper_T s : "T"%char ∉ list_ascii_of_string (lower s).
Proof.
  induction s as [|c s IH]; simpl; [by intros ?%elem_of_nil|].
  intros [Heq|Hin]%elem_of_cons; [|done].
  by apply (lower_char_not_upper_T c).
Qed.

(** The pattern written with a capital letter is never found in
    lower-cased text. *)
Lemma shell_True_never_found q : contains "shell=True" (lower q) = false.
Proof.
  destruct (contains "shell=True" (lower q)) eqn:E; [exfalso|done].
  apply (lower_has_no_upper_T q), (contains_chars "shell=True" _ _ E).
  simpl. rewrite !elem_of_cons. auto 10.
Qed.

Lemma lowercase_patterns p :
  p ∈ malicious_patterns → p ≠ "shell=True" → lower p = p.
Proof.
  unfold malicious_patterns. rewrite !elem_of_cons, elem_of_nil.
  intros Hp Hne. repeat (destruct Hp as [->|Hp]; [by vm_compute|]).
  destruct Hp.
Qed.

Lemma QueryRequest_parse_unfold v :
  QueryRequest_parse (Some v) =
  if truthy v && negb (1000 <? String.length v)%nat &&
     no_pattern_in malicious_patterns (lower v)
  then Some (strip v) else None.
Proof.
  unfold QueryRequest_parse, QueryRequest_validate_query, validate_query_input.
  destruct (truthy v); [|done].
  destruct (1000 <? String.length v)%nat; [done|].
  cbn [negb andb]. by destruct (no_pattern_in malicious_patterns (lower v)).
Qed.
End ValidatorFacts.

(** Text made of blanks only passes the validator and yields the empty
    text; text with the pattern in capital-T spelling passes too. *)
Example blank_query_is_accepted : QueryRequest_parse (Some "   ") = Some "".
Proof. reflexivity. Qed.

Example shell_True_is_accepted :
  QueryRequest_parse (Some "subprocEss.run(cmd, shell=True)") = None ∧
  QueryRequest_parse (Some "run(cmd, shell=True)") = Some "run(cmd, shell=True)".
Proof. split; reflexivity. Qed.

(** C6, as the claim has it, fails: input that is empty after trimming is
    not always rejected, three blanks are accepted. *)
Lemma blank_query_is_not_rejected :
  ¬ (∀ v, strip v = EmptyString → QueryRequest_parse (Some v) = None).
Proof. intros H. specialize (H "   " eq_refl). discriminate H. Qed.

(** C6, as amended: validation rejects input that is absent or is the empty
    string before any trimming, rejects input of more than 1000 characters
    counted before trimming, rejects input that in any letter case contains
    one of the blacklisted substrings other than [shell=True], passes input
    that is not empty, has at most 1000 characters and contains no
    blacklisted substring in any letter case, and whenever it passes it
    returns the trimmed text; a string of exactly 1000 letters a is accepted
    and every string of 1001 characters is rejected. *)
Theorem query_validation_rules (v : string) :
  QueryRequest_parse None = None ∧
  QueryRequest_parse (Some "") = None ∧
  ((1000 < String.length v)%nat → QueryRequest_parse (Some v) = None) ∧
  (∀ p, p ∈ malicious_patterns → p ≠ "shell=True" →
        contains (lower p) (lower v) = true → QueryRequest_parse (Some v) = None) ∧
  (v ≠ EmptyString → (String.length v ≤ 1000)%nat →
   (∀ p, p ∈ malicious_patterns → contains (lower p) (lower v) = false) →
   QueryRequest_parse (Some v) = Some (strip v)) ∧
  (∀ r, QueryRequest_parse (Some v) = Some r → r = strip v) ∧
  QueryRequest_parse (Some thousand_a) = Some thousand_a ∧
  (String.length v = 1001%nat → QueryRequest_parse (Some v) = None).
Proof.
  assert (Hlong : (1000 < String.length v)%nat → QueryRequest_parse (Some v) = None).
  { intros Hlen. rewrite QueryRequest_parse_unfold.
    rewrite (proj2 (Nat.ltb_lt _ _) Hlen). by rewrite andb_false_r. }
  split_and!; [done|done|exact Hlong| | | |by vm_compute|intros Hl; apply Hlong; lia].
  - intros p Hp Hne Hc. rewrite (lowercase_patterns p Hp Hne) in Hc.
    rewrite QueryRequest_parse_unfold, (no_pattern_in_found _ p _ Hp Hc).
    by rewrite andb_false_r.
  - intros Hne Hlen Hclean.
    rewrite QueryRequest_parse_unfold, (truthy_true v Hne).
    rewrite (proj2 (Nat.ltb_ge _ _) Hlen).
    rewrite no_pattern_in_clean; [done|].
    intros p Hp. destruct (decide (p = "shell=True")) as [->|Hp'].
    + apply shell_True_never_found.
    + rewrite <- (lowercase_patterns p Hp Hp'). by apply Hclean.
  - intros r. rewrite QueryRequest_parse_unfold.
    destruct (_ && _); congruence.
Qed.

(** * Properties of the application *)

Section AppFacts.
Variable cfg : SecurityConfig.
Variable run_crew_query : string → json + string.
Variable hash_sensitive_data : string → string.
Variable CORSMiddleware : Handler → Handler.

Lemma startswith_refl s : startswith s s = true.
Proof. induction s as [|c s IH]; simpl; [done|]. by rewrite Ascii.eqb_refl. Qed.

Lemma contains_suffix p s : contains s (p ++ s) = true.
Proof.
  induction p as [|c p IH]; simpl.
  - destruct s; simpl; by rewrite ?Ascii.eqb_refl, ?startswith_refl.
  - rewrite IH. apply orb_true_r.
Qed.

Lemma headers_get_filter name name' hs :
  lower name ≠ lower name' →
  headers_get name
    (List.filter (fun kv => negb (String.eqb (fst kv) (lower name'))) hs)
  = headers_get name hs.
Proof.
  intros Hne. induction hs as [|[n v] hs IH]; simpl; [done|].
  destruct (String.eqb n (lower name')) eqn:E; simpl.
  - apply String.eqb_eq in E as ->.
    by rewrite (proj2 (String.eqb_neq _ _)) by congruence.
  - by rewrite IH.
Qed.

Lemma headers_get_set_same name value hs :
  headers_get name (headers_set name value hs) = Some value.
Proof.
  induction hs as [|[n v] hs IH]; simpl.
  - by rewrite String.eqb_refl.
  - destruct (String.eqb n (lower name)) eqn:E; simpl; by rewrite E.
Qed.

Lemma headers_get_set_other name name' value hs :
  lower name ≠ lower name' →
  headers_get name (headers_set name' value hs) = headers_get name hs.
Proof.
  intros Hne. induction hs as [|[n v] hs IH]; simpl.
  - by rewrite (proj2 (String.eqb_neq _ _)) by congruence.
  - destruct (String.eqb n (lower name')) eqn:E; simpl.
    + apply String.eqb_eq in E as ->.
      rewrite (proj2 (String.eqb_neq _ _)) by congruence.
      by apply headers_get_filter.
    + by rewrite IH.
Qed.

(** Whatever passes through [add_security_headers] leaves with the six
    headers set. *)
Lemma add_security_headers_sets_all call_next now request w name value :
  (name, value) ∈ get_security_headers →
  headers_get name (headers (fst (add_security_headers call_next now request w)))
  = Some value.
Proof.
  unfold add_security_headers. destruct (call_next now request w) as [r w'].
  simpl. generalize (headers r). intros hs.
  unfold get_security_headers. rewrite !elem_of_cons, elem_of_nil.
  intros Hin.
  repeat (destruct Hin as [Hin|Hin];
    [injection Hin as -> ->;
     repeat (rewrite headers_get_set_other by (vm_compute; discriminate));
     by rewrite headers_get_set_same|]).
  destruct Hin.
Qed.

(** X15: a request the limiter lets through is answered through
    [add_security_headers]. *)
Lemma admitted_response_has_security_headers now request w name value :
  fst (is_allowed cfg now (client_host request) (requests w)) = true →
  (name, value) ∈ get_security_headers →
  headers_get name
    (headers (fst (app cfg run_crew_query hash_sensitive_data CORSMiddleware
                     now request w)))
  = Some value.
Proof.
  intros Hallowed Hin.
  unfold app, user_middleware, add_middleware, build_middleware_stack. simpl.
  unfold log_requests, rate_limit_middleware. simpl.
  destruct (is_allowed cfg now (client_host request) (requests w)) as [b rq].
  simpl in Hallowed. subst b. simpl.
  match goal with
  | |- context [add_security_headers ?h ?n ?r ?w0] =>
      pose proof (add_security_headers_sets_all h n r w0 name value Hin) as Hs;
      destruct (add_security_headers h n r w0) as [resp w2]
  end.
  exact Hs.
Qed.

(** C2: a request the limiter refuses is answered with status 429 by
    [rate_limit_middleware], outside [add_security_headers], and the
    response carries none of the six security headers. *)
Theorem rate_limited_response_lacks_security_headers now request w :
  fst (is_allowed cfg now (client_host request) (requests w)) = false →
  let response :=
    fst (app cfg run_crew_query hash_sensitive_data CORSMiddleware
           now request w) in
  status_code response = 429 ∧
  ∀ name, name ∈ map fst get_security_headers →
          headers_get name (headers response) = None.
Proof.
  intros Hrefused.
  unfold app, user_middleware, add_middleware, build_middleware_stack. simpl.
  unfold log_requests, rate_limit_middleware. simpl.
  destruct (is_allowed cfg now (client_host request) (requests w)) as [b rq].
  simpl in Hrefused. subst b. simpl. split; [done|].
  intros name. rewrite !elem_of_cons, elem_of_nil.
  intros Hin. repeat (destruct Hin as [->|Hin]; [by vm_compute|]).
  destruct Hin.
Qed.

(** C3, as amended: for an admitted, validated request on the query
    endpoint for which the processor raises an exception, the response has
    status 500 and its body is the single field [detail] holding
    [Error processing marketing query: ] followed by the text of the
    exception, so the cause is visible to the client; the same message is
    written to the log as an error, and nothing else changes. *)
Theorem upstream_failure_returns_cause now request w q e :
  admits (APIKeyAuth_call cfg request) = true →
  QueryRequest_parse (query request) = Some q →
  run_crew_query q = inr e →
  let msg := ("Error processing marketing query: " ++ e)%string in
  let response := fst (crewai_route cfg run_crew_query hash_sensitive_data
                         now request w) in
  let w' := snd (crewai_route cfg run_crew_query hash_sensitive_data
                   now request w) in
  status_code response = 500 ∧
  content response = [("detail", msg)] ∧
  contains e msg = true ∧
  log w' = log w ++ [LogInfo ("Processing marketing query: " ++
                               hash_sensitive_data q); LogError msg] ∧
  requests w' = requests w.
Proof.
  intros Hauth Hq He msg response w'.
  unfold response, w', crewai_route, query_crew_endpoint.
  rewrite Hq, He.
  destruct (APIKeyAuth_call cfg request); try discriminate Hauth;
    cbn [fst snd status_code content http_exception_response JSONResponse
         log requests logged];
    (split_and!;
       [done|done|apply contains_suffix|by rewrite <- app_assoc|done]).
Qed.
End AppFacts.

Lemma rate_limited_response_lacks_security_headers_witness :
  let w := {| requests := {["203.0.113.7" := [0; 1000000]]}; log := [] |} in
  let response :=
    fst (app (example_cfg 2 60) failing_processor (fun _ => "2c26b46b")
           cors_no_origin 2000000
           (crewai_request None None (Some "What are our top campaigns?")) w) in
  status_code response = 429 ∧
  ∀ name, name ∈ map fst get_security_headers →
          headers_get name (headers response) = None.
Proof.
  apply (rate_limited_response_lacks_security_headers (example_cfg 2 60)
           failing_processor (fun _ => "2c26b46b") cors_no_origin 2000000
           (crewai_request None None (Some "What are our top campaigns?"))).
  vm_compute. reflexivity.
Defined.

(** C3, as the claim has it, fails: in development with no configured key,
    a valid query whose processing raises [CrewAI processing error] is
    answered with status 500 and a body that is not the generic one and
    contains the exception text. *)
Lemma upstream_failure_is_not_sanitized :
  let request := crewai_request None None (Some "What are our top campaigns?") in
  admits (APIKeyAuth_call development_no_keys request) = true ∧
  QueryRequest_parse (query request) = Some "What are our top campaigns?" ∧
  ¬ sanitized_failure "CrewAI processing error"
      (fst (app development_no_keys failing_processor (fun _ => "2c26b46b")
              cors_no_origin 0 request fresh_world)).
Proof.
  split_and!; [reflexivity|reflexivity|].
  intros (_ & Hbody & _). vm_compute in Hbody. discriminate Hbody.
Qed.

Lemma upstream_failure_returns_cause_witness :
  let request := crewai_request None None (Some "What are our top campaigns?") in
  let msg := "Error processing marketing query: CrewAI processing error" in
  let response := fst (crewai_route development_no_keys failing_processor
                         (fun _ => "2c26b46b") 0 request fresh_world) in
  let w' := snd (crewai_route development_no_keys failing_processor
                   (fun _ => "2c26b46b") 0 request fresh_world) in
  status_code response = 500 ∧
  content response = [("detail", msg)] ∧
  contains "CrewAI processing error" msg = true ∧
  log w' = [LogInfo "Processing marketing query: 2c26b46b"; LogError msg] ∧
  requests w' = ∅.
Proof.
  apply (upstream_failure_returns_cause development_no_keys failing_processor
           (fun _ => "2c26b46b") 0
           (crewai_request None None (Some "What are our top campaigns?"))
           fresh_world "What are our top campaigns?" "CrewAI processing error");
    reflexivity.
Defined.

Lemma query_validation_rules_witness :
  QueryRequest_parse (Some "  What are our top campaigns? ")
    = Some "What are our top campaigns?" ∧
  QueryRequest_parse (Some "run EVAL(1)") = None.
Proof.
  destruct (query_validation_rules "  What are our top campaigns? ")
    as (_ & _ & _ & _ & Hpass & _).
  destruct (query_validation_rules "run EVAL(1)")
    as (_ & _ & _ & Hbad & _).
  split.
  - rewrite Hpass; [reflexivity|discriminate|vm_compute; lia|].
    intros p. unfold malicious_patterns. rewrite !elem_of_cons, elem_of_nil.
    intros Hp. repeat (destruct Hp as [->|Hp]; [reflexivity|]). destruct Hp.
  - apply (Hbad "eval("); [|discriminate|reflexivity].
    unfold malicious_patterns. rewrite !elem_of_cons. auto 10.
Defined.

(** * Further properties of the rate limiter *)

Section RateLimiterMore.
Variable cfg : SecurityConfig.
Local Abbreviation W := (timedelta_seconds (rate_limit_window cfg)).
Local Abbreviation Q := (rate_limit_requests cfg).

Lemma filter_agree_on_members (P1 P2 : Z → Prop)
    `{!∀ x, Decision (P1 x), !∀ x, Decision (P2 x)} (l : list Z) :
  (∀ x, x ∈ l → P1 x ↔ P2 x) → filter P1 l = filter P2 l.
Proof.
  induction l as [|a l IH]; intros Hiff; [done|].
  assert (Ha : P1 a ↔ P2 a) by (apply Hiff, elem_of_cons; by left).
  assert (Hl : filter P1 l = filter P2 l).
  { apply IH. intros x Hx. apply Hiff, elem_of_cons. by right. }
  rewrite !filter_cons, Hl.
  destruct (decide (P1 a)), (decide (P2 a)); tauto.
Qed.

(** A stored window is never longer than the number of calls its identity
    has made. *)
Lemma stored_at_most_calls tr c l :
  fst (exec cfg tr) !! c = Some l →
  (length l ≤ length (filter (fun e => fst e = c) tr))%nat.
Proof.
  revert c l. induction tr as [|[d n] tr IH] using rev_ind; intros c l.
  - unfold exec, exec_from; simpl. by rewrite lookup_empty.
  - rewrite exec_snoc. unfold call. simpl.
    destruct (is_allowed cfg n d (exec cfg tr).1) as [b st'] eqn:E. simpl.
    rewrite is_allowed_same in E. simpl in E.
    rewrite filter_app, length_app, filter_cons. simpl.
    destruct (decide (d = c)) as [->|Hne].
    + pose proof (length_filter (fun t => n - W < t)
                    (default [] ((exec cfg tr).1 !! c))) as Hlen.
      assert (Hold : (length (default [] ((exec cfg tr).1 !! c))
                      ≤ length (filter (fun e => fst e = c) tr))%nat).
      { destruct ((exec cfg tr).1 !! c) as [l0|] eqn:E'; simpl; [|lia].
        by apply IH. }
      destruct (Q <=? _); simplify_eq; rewrite lookup_insert_eq;
        intros ?; simplify_eq; rewrite ?length_app; simpl; lia.
    + intros Hl. etrans; [apply (IH c l)|lia].
      destruct (Q <=? _); simplify_eq; by rewrite lookup_insert_ne in Hl.
Qed.

(** X1: whatever the clock does, an identity that has made fewer calls than the
    quota since the limiter was created is admitted. *)
Theorem calls_below_quota_are_admitted tr c now :
  Z.of_nat (length (filter (fun e => fst e = c) tr)) < Q →
  fst (is_allowed cfg now c (fst (exec cfg tr))) = true.
Proof.
  intros Hfew. rewrite is_allowed_same. simpl.
  pose proof (length_filter (fun t => now - W < t)
                (default [] ((exec cfg tr).1 !! c))) as Hlen.
  assert (Hold : (length (default [] ((exec cfg tr).1 !! c))
                  ≤ length (filter (fun e => fst e = c) tr))%nat).
  { destruct ((exec cfg tr).1 !! c) as [l0|] eqn:E'; simpl; [|lia].
    by apply stored_at_most_calls. }
  by rewrite (proj2 (Z.leb_gt _ _)) by lia.
Qed.

(** X2: with a window length of zero or less and a clock that never goes back,
    nothing is ever held against a caller: every call is admitted as long as
    the quota is at least one. *)
Theorem nonpositive_window_admits_every_call tr c now :
  rate_limit_window cfg ≤ 0 → 1 ≤ Q →
  monotone (tr ++ [(c, now)]) →
  fst (is_allowed cfg now c (fst (exec cfg tr))) = true.
Proof.
  intros HW HQ [Hmono Hle]%monotone_snoc.
  rewrite is_allowed_same. simpl.
  assert (Hnil : filter (fun t => now - W < t)
                   (default [] ((exec cfg tr).1 !! c)) = []).
  { destruct (filter _ _) as [|x l] eqn:Ef; [done|exfalso].
    assert (Hx : x ∈ filter (fun t => now - W < t)
                   (default [] ((exec cfg tr).1 !! c)))
      by (rewrite Ef; apply elem_of_cons; by left).
    apply list_elem_of_filter in Hx as [Hlt Hx].
    destruct ((exec cfg tr).1 !! c) as [l0|] eqn:E'; simpl in Hx;
      [|by apply elem_of_nil in Hx].
    pose proof (Hle (c, x) (stored_in_trace cfg tr c l0 x E' Hx)) as Hxn.
    simpl in Hxn. unfold timedelta_seconds in Hlt. lia. }
  rewrite Hnil. simpl. by rewrite (proj2 (Z.leb_gt _ _)) by lia.
Qed.

(** X3: the dictionary holds an entry for exactly the identities that have
    called, admitted or not: no entry is ever removed. *)
Theorem limiter_keeps_every_identity tr :
  dom (fst (exec cfg tr)) = list_to_set (map fst tr).
Proof.
  induction tr as [|[d n] tr IH] using rev_ind.
  - unfold exec, exec_from; simpl. by rewrite dom_empty_L.
  - rewrite exec_snoc. unfold call. simpl.
    destruct (is_allowed cfg n d (exec cfg tr).1) as [b st'] eqn:E. simpl.
    rewrite is_allowed_same in E. simpl in E.
    rewrite map_app, list_to_set_app_L. simpl.
    destruct (Q <=? _); simplify_eq;
      by rewrite dom_insert_L, IH, union_empty_r_L, (comm_L (∪)).
Qed.

Lemma StronglySorted_le_filter (P : Z → Prop) `{!∀ x, Decision (P x)} l :
  StronglySorted Z.le l → StronglySorted Z.le (filter P l).
Proof.
  induction 1 as [|a l Hs IH Hall]; [constructor|].
  rewrite filter_cons. destruct (decide (P a)); [|done].
  constructor; [done|]. apply Forall_forall. intros x [_ Hx]%list_elem_of_filter.
  by eapply Forall_forall in Hall.
Qed.

(** X4: under a clock that never goes back every stored window is in
    non-decreasing order of time. *)
Theorem stored_window_is_sorted tr c l :
  monotone tr → fst (exec cfg tr) !! c = Some l → StronglySorted Z.le l.
Proof.
  revert c l. induction tr as [|[d n] tr IH] using rev_ind; intros c l.
  - intros _. unfold exec, exec_from; simpl. by rewrite lookup_empty.
  - intros [Hmono Hle]%monotone_snoc.
    pose proof (stored_in_trace cfg tr d) as Hin.
    rewrite exec_snoc. unfold call. simpl.
    destruct (is_allowed cfg n d (exec cfg tr).1) as [b st'] eqn:E. simpl.
    rewrite is_allowed_same in E. simpl in E.
    assert (Hold : StronglySorted Z.le (default [] ((exec cfg tr).1 !! d))).
    { destruct ((exec cfg tr).1 !! d) as [l0|] eqn:E'; simpl; [|constructor].
      by apply (IH d). }
    destruct (decide (d = c)) as [->|Hne].
    + destruct (Q <=? _); simplify_eq; rewrite lookup_insert_eq;
        intros ?; simplify_eq.
      * by apply StronglySorted_le_filter.
      * apply StronglySorted_app_2;
          [|by apply StronglySorted_le_filter|repeat constructor].
        intros x1 x2 [_ Hx1]%list_elem_of_filter ->%list_elem_of_singleton.
        destruct ((exec cfg tr).1 !! c) as [l0|] eqn:E'; simpl in Hx1;
          [|by apply elem_of_nil in Hx1].
        apply (Hle (c, x1)). by eapply Hin.
    + destruct (Q <=? _); simplify_eq; rewrite lookup_insert_ne by done;
        by apply IH.
Qed.

Lemma admitted_in_window_now tr c now :
  (∀ e, e ∈ tr → snd e ≤ now) →
  filter (fun t => now - W < t) (admitted c (snd (exec cfg tr))) =
  filter (in_window W now) (admitted c (snd (exec cfg tr))).
Proof.
  intros Hle. apply filter_agree_on_members. intros x Hx.
  pose proof (Hle (c, x) (admitted_in_trace cfg tr c x Hx)) as Hxn.
  simpl in Hxn. unfold in_window. lia.
Qed.

(** X5: under a clock that never goes back the answer to a call is decided by
    the admitted calls of the same identity inside the window alone: it is
    true exactly when they number less than the quota. Rejected calls and
    the calls of other identities count for nothing. *)
Theorem answer_counts_admitted_calls_only tr c now :
  monotone (tr ++ [(c, now)]) →
  fst (is_allowed cfg now c (fst (exec cfg tr))) =
  negb (Q <=? Z.of_nat (length (filter (in_window W now)
                                  (admitted c (snd (exec cfg tr)))))).
Proof.
  intros [Hmono Hle]%monotone_snoc.
  rewrite is_allowed_same. simpl.
  rewrite (window_agrees cfg tr c now Hmono Hle), (admitted_in_window_now tr c now Hle).
  by destruct (Q <=? _).
Qed.

(** X6: with a positive window length and a clock that never goes back, right
    after a call of an identity its stored window is exactly the list of its
    admitted calls inside the window that ends at that call. *)
Theorem stored_window_is_recent_history tr c now :
  0 < rate_limit_window cfg →
  monotone (tr ++ [(c, now)]) →
  fst (exec cfg (tr ++ [(c, now)])) !! c =
  Some (filter (in_window W now)
          (admitted c (snd (exec cfg (tr ++ [(c, now)]))))).
Proof.
  intros HW Hmono'. pose proof Hmono' as [Hmono Hle]%monotone_snoc.
  assert (Hle' : ∀ e, e ∈ tr ++ [(c, now)] → snd e ≤ now).
  { intros e [He| ->%list_elem_of_singleton]%elem_of_app; [by apply Hle|done]. }
  rewrite <- (admitted_in_window_now (tr ++ [(c, now)]) c now Hle').
  pose proof (window_agrees cfg tr c now Hmono Hle) as Hag.
  rewrite exec_snoc. unfold call. simpl.
  destruct (is_allowed cfg now c (exec cfg tr).1) as [b st'] eqn:E. simpl.
  rewrite is_allowed_same in E. simpl in E.
  rewrite admitted_snoc, filter_app, bool_decide_true by done.
  destruct (Q <=? _); simplify_eq; rewrite lookup_insert_eq; simpl.
  - by rewrite app_nil_r, Hag.
  - rewrite filter_cons_True by (unfold timedelta_seconds; lia).
    by rewrite Hag.
Qed.
End RateLimiterMore.

Lemma calls_below_quota_are_admitted_witness :
  fst (is_allowed (example_cfg 2 60) 5 "A"
         (fst (exec (example_cfg 2 60) [("B", 9000000); ("A", 7); ("B", 3)]))) = true.
Proof.
  apply calls_below_quota_are_admitted. vm_compute. reflexivity.
Defined.

Lemma nonpositive_window_admits_every_call_witness :
  fst (is_allowed (example_cfg 1 0) 20 "A"
         (fst (exec (example_cfg 1 0) [("A", 10); ("A", 20)]))) = true.
Proof.
  apply nonpositive_window_admits_every_call.
  - simpl. lia.
  - simpl. lia.
  - unfold monotone. simpl. repeat constructor; lia.
Defined.

Lemma stored_window_is_sorted_witness :
  StronglySorted Z.le [1000000; 60500000].
Proof.
  apply (stored_window_is_sorted (example_cfg 2 60)
           [("A", 0); ("A", 1000000); ("A", 2000000); ("A", 60500000)] "A").
  - unfold monotone. simpl. repeat constructor; lia.
  - vm_compute. reflexivity.
Defined.

Lemma answer_counts_admitted_calls_only_witness :
  let cfg := example_cfg 2 60 in
  let tr := [("A", 0); ("A", 1000000); ("A", 2000000); ("A", 3000000)] in
  fst (is_allowed cfg 60000000 "A" (fst (exec cfg tr))) =
  negb (2 <=? Z.of_nat (length (filter (in_window (timedelta_seconds 60) 60000000)
                                  (admitted "A" (snd (exec cfg tr)))))).
Proof.
  apply (answer_counts_admitted_calls_only (example_cfg 2 60)
           [("A", 0); ("A", 1000000); ("A", 2000000); ("A", 3000000)]
           "A" 60000000).
  unfold monotone. simpl. repeat constructor; lia.
Defined.

Lemma stored_window_is_recent_history_witness :
  let cfg := example_cfg 2 60 in
  let tr := [("A", 0); ("A", 1000000); ("B", 2000000)] in
  fst (exec cfg (tr ++ [("A", 60500000)])) !! "A" =
  Some (filter (in_window (timedelta_seconds 60) 60500000)
          (admitted "A" (snd (exec cfg (tr ++ [("A", 60500000)]))))).
Proof.
  apply (stored_window_is_recent_history (example_cfg 2 60)
           [("A", 0); ("A", 1000000); ("B", 2000000)] "A" 60500000).
  - simpl. lia.
  - unfold monotone. simpl. repeat constructor; lia.
Defined.

(** * Properties of the configured lists and of key checking *)

Section ConfiguredLists.
Lemma lstrip_length s : (String.length (lstrip s) ≤ String.length s)%nat.
Proof. induction s as [|c s IH]; simpl; [done|]. destruct (isspace c); simpl; lia. Qed.

Lemma lstrip_fixed s : lstrip (lstrip s) = lstrip s.
Proof.
  induction s as [|c s IH]; simpl; [done|].
  destruct (isspace c) eqn:E; [done|]. simpl. by rewrite E.
Qed.

Lemma rstrip_fixed s : rstrip (rstrip s) = rstrip s.
Proof.
  induction s as [|c s IH]; simpl; [done|].
  destruct (rstrip s) as [|a r] eqn:E.
  - destruct (isspace c) eqn:Ec; simpl; [done|]. by rewrite Ec.
  - change (rstrip (String c (String a r))) with
      (match rstrip (String a r) with
       | EmptyString => if isspace c then EmptyString else String c EmptyString
       | r' => String c r'
       end).
    by rewrite IH.
Qed.

Lemma lstrip_rstrip s : lstrip s = s → lstrip (rstrip s) = rstrip s.
Proof.
  destruct s as [|c s]; [done|]. simpl.
  destruct (isspace c) eqn:E.
  - intros Heq. pose proof (lstrip_length s) as Hlen.
    rewrite Heq in Hlen. simpl in Hlen. lia.
  - intros _. destruct (rstrip s); simpl; by rewrite E.
Qed.

Lemma strip_fixed s : strip (strip s) = strip s.
Proof.
  unfold strip. rewrite (lstrip_rstrip (lstrip s) (lstrip_fixed s)).
  apply rstrip_fixed.
Qed.

Lemma lstrip_is_suffix s : ∃ a, s = (a ++ lstrip s)%string.
Proof.
  induction s as [|c s [a IH]]; simpl; [by exists EmptyString|].
  destruct (isspace c).
  - exists (String c a). exact (f_equal (String c) IH).
  - by exists EmptyString.
Qed.

Lemma rstrip_is_prefix s : ∃ b, s = (rstrip s ++ b)%string.
Proof.
  induction s as [|c s [b IH]]; simpl; [by exists EmptyString|].
  destruct (rstrip s) as [|a r] eqn:E.
  - destruct (isspace c).
    + exists (String c s). reflexivity.
    + exists s. reflexivity.
  - exists b. exact (f_equal (String c) IH).
Qed.

Lemma string_app_assoc (a b c : string) : ((a ++ b) ++ c = a ++ (b ++ c))%string.
Proof.
  induction a as [|x a IH]; [reflexivity|]. exact (f_equal (String x) IH).
Qed.

(** The stripped text sits inside the text it was made from. *)
Lemma strip_is_inside s : ∃ a b, s = (a ++ strip s ++ b)%string.
Proof.
  destruct (lstrip_is_suffix s) as [a Ha].
  destruct (rstrip_is_prefix (lstrip s)) as [b Hb].
  exists a, b. unfold strip. by rewrite <- Hb.
Qed.

Lemma chars_app (a b : string) :
  list_ascii_of_string (a ++ b) = list_ascii_of_string a ++ list_ascii_of_string b.
Proof.
  induction a as [|x a IH]; [reflexivity|]. exact (f_equal (cons x) IH).
Qed.

Lemma strip_chars s c :
  c ∈ list_ascii_of_string (strip s) → c ∈ list_ascii_of_string s.
Proof.
  destruct (strip_is_inside s) as (a & b & Hs). intros Hc.
  rewrite Hs, !chars_app, !elem_of_app. auto.
Qed.

Lemma split_pieces_lack_separator sep s w :
  w ∈ split sep s → sep ∉ list_ascii_of_string w.
Proof.
  revert w. induction s as [|c s IH]; simpl; intros w.
  - intros ->%list_elem_of_singleton. by intros ?%elem_of_nil.
  - destruct (Ascii.eqb c sep) eqn:E.
    + intros [->|Hw]%elem_of_cons; [by intros ?%elem_of_nil|by apply IH].
    + apply Ascii.eqb_neq in E.
      destruct (split sep s) as [|w0 ws] eqn:Es.
      * intros ->%list_elem_of_singleton. simpl.
        intros [?|?%elem_of_nil]%elem_of_cons; congruence.
      * intros [->|Hw]%elem_of_cons.
        -- simpl. intros [?|Hin]%elem_of_cons; [congruence|].
           revert Hin. apply IH, elem_of_cons. by left.
        -- apply IH, elem_of_cons. by right.
Qed.

(** What a comma-separated setting yields: the stripped pieces that are not
    empty. Each is free of surrounding blanks and of commas. *)
Lemma setting_entries s x :
  x ∈ List.filter truthy (map strip (split "," s)) ↔
  x ≠ EmptyString ∧ ∃ piece, piece ∈ split "," s ∧ x = strip piece.
Proof.
  rewrite list_elem_of_In, filter_In, in_map_iff. split.
  - intros [(piece & <- & Hp) Ht]. split; [by destruct (strip piece)|].
    exists piece. by rewrite list_elem_of_In.
  - intros [Hne (piece & Hp & ->)]. split; [|by destruct (strip piece)].
    exists piece. by rewrite <- list_elem_of_In.
Qed.

Lemma setting_entries_clean s x :
  x ∈ List.filter truthy (map strip (split "," s)) →
  x ≠ EmptyString ∧ strip x = x ∧ ","%char ∉ list_ascii_of_string x.
Proof.
  intros [Hne (piece & Hp & ->)]%setting_entries. split_and!; [done|apply strip_fixed|].
  intros Hin%strip_chars. by apply (split_pieces_lack_separator _ _ _ Hp).
Qed.
End ConfiguredLists.

(** X7: every configured API key is a non-empty piece of the [API_KEYS] setting
    with the blanks around it removed, and holds no comma. *)
Theorem configured_keys_are_clean cfg k :
  k ∈ get_api_keys cfg →
  k ≠ EmptyString ∧ strip k = k ∧ (","%char ∉ list_ascii_of_string k) ∧
  ∃ piece, piece ∈ split "," (API_KEYS cfg) ∧ k = strip piece.
Proof.
  intros Hk. destruct (setting_entries_clean _ _ Hk) as (H1 & H2 & H3).
  apply setting_entries in Hk as [_ Hp]. done.
Qed.

Lemma configured_keys_are_clean_witness :
  "beta" ≠ EmptyString ∧ strip "beta" = "beta" ∧
  (","%char ∉ list_ascii_of_string "beta") ∧
  ∃ piece, piece ∈ split "," (API_KEYS keyed_cfg) ∧ "beta" = strip piece.
Proof.
  apply (configured_keys_are_clean keyed_cfg "beta").
  vm_compute. apply list_elem_of_In. simpl. auto.
Defined.

Section KeyChecking.
Variable cfg : SecurityConfig.

Lemma configured_key_not_empty k : k ∈ get_api_keys cfg → k ≠ EmptyString.
Proof. intros Hk. by destruct (setting_entries_clean _ _ Hk) as (Hne & _). Qed.

Lemma validate_api_key_member api_key :
  get_api_keys cfg ≠ [] →
  (validate_api_key cfg api_key = true ↔ api_key ∈ get_api_keys cfg).
Proof.
  intros Hkeys. unfold validate_api_key.
  destruct (get_api_keys cfg) as [|k0 ks] eqn:E; [done|].
  rewrite list_elem_of_In, <- E. rewrite existsb_exists. split.
  - intros (x & Hx & ->%String.eqb_eq). done.
  - intros Hin. exists api_key. by rewrite String.eqb_refl.
Qed.

Lemma no_bypass_with_keys :
  get_api_keys cfg ≠ [] →
  (String.eqb (environment cfg) "development" &&
     match get_api_keys cfg with [] => true | _ => false end) = false.
Proof. intros Hkeys. destruct (get_api_keys cfg); [done|apply andb_false_r]. Qed.

(** X9: when at least one key is configured, in any deployment mode, a request
    is admitted exactly when its API-key header or its bearer token is one
    of the configured keys. *)
Theorem admitted_iff_configured_key request :
  get_api_keys cfg ≠ [] →
  (admits (APIKeyAuth_call cfg request) = true ↔
   (∃ k, x_api_key request = Some k ∧ k ∈ get_api_keys cfg) ∨
   (∃ scheme token, bearer request = Some (scheme, token) ∧
                    token ∈ get_api_keys cfg)).
Proof.
  intros Hkeys. unfold APIKeyAuth_call. rewrite (no_bypass_with_keys Hkeys).
  assert (Hbearer :
    admits (match bearer request with
            | Some (scheme, token) =>
                if validate_api_key cfg token then AuthCredentials scheme token
                else AuthHTTPException 401 "Invalid or missing API key"
            | None => AuthHTTPException 401 "Invalid or missing API key"
            end) = true ↔
    ∃ scheme token, bearer request = Some (scheme, token) ∧
                    token ∈ get_api_keys cfg).
  { destruct (bearer request) as [[scheme token]|]; simpl.
    - destruct (validate_api_key cfg token) eqn:Ev; simpl.
      + apply (validate_api_key_member token Hkeys) in Ev. split; [|done].
        intros _. by exists scheme, token.
      + split; [done|]. intros (s' & t' & ? & Hin); simplify_eq.
        apply (validate_api_key_member t' Hkeys) in Hin. congruence.
    - split; [done|]. by intros (? & ? & ? & _). }
  destruct (x_api_key request) as [k|] eqn:Ek.
  - destruct (truthy k && validate_api_key cfg k) eqn:Ev; simpl.
    + apply andb_true_iff in Ev as [_ Ev].
      apply (validate_api_key_member k Hkeys) in Ev. split; [|done].
      intros _. left. by exists k.
    + rewrite Hbearer. split; [by right|]. intros [(k' & ? & Hin)|Hb]; [|done].
      simplify_eq.
      pose proof (configured_key_not_empty k' Hin) as Hne.
      apply (validate_api_key_member k' Hkeys) in Hin.
      rewrite Hin, (truthy_true k' Hne) in Ev. discriminate.
  - rewrite Hbearer. split; [by right|]. by intros [(? & ? & _)|?].
Qed.

(** X10: a configured key in the API-key header is the credential of the
    request, whatever bearer token comes with it. *)
Theorem header_key_takes_precedence request k :
  k ∈ get_api_keys cfg →
  x_api_key request = Some k →
  APIKeyAuth_call cfg request = AuthCredentials "ApiKey" k.
Proof.
  intros Hin Hk.
  assert (Hkeys : get_api_keys cfg ≠ []).
  { intros Hnil. rewrite Hnil in Hin. by apply elem_of_nil in Hin. }
  pose proof (configured_key_not_empty k Hin) as Hne.
  unfold APIKeyAuth_call. rewrite (no_bypass_with_keys Hkeys), Hk.
  apply (validate_api_key_member k Hkeys) in Hin.
  by rewrite Hin, (truthy_true k Hne).
Qed.
End KeyChecking.

Lemma admitted_iff_configured_key_witness :
  admits (APIKeyAuth_call keyed_cfg
            (crewai_request None (Some ("Bearer", "beta")) None)) = true ∧
  admits (APIKeyAuth_call keyed_cfg
            (crewai_request (Some " alpha ") None None)) = false.
Proof.
  assert (Hkeys : get_api_keys keyed_cfg ≠ []) by discriminate.
  split.
  - apply (admitted_iff_configured_key keyed_cfg _ Hkeys). right.
    exists "Bearer", "beta". split; [reflexivity|].
    vm_compute. apply list_elem_of_In. simpl. auto.
  - destruct (admits _) eqn:E; [|reflexivity]. exfalso.
    apply (admitted_iff_configured_key keyed_cfg _ Hkeys) in E.
    destruct E as [(k & Hk & Hin)|(s & t & Hb & _)]; [|discriminate Hb].
    injection Hk as <-. apply list_elem_of_In in Hin. vm_compute in Hin.
    destruct Hin as [Hin|[Hin|[]]]; discriminate Hin.
Defined.

Lemma header_key_takes_precedence_witness :
  APIKeyAuth_call keyed_cfg
    (crewai_request (Some "alpha") (Some ("Bearer", "beta")) None)
  = AuthCredentials "ApiKey" "alpha".
Proof.
  apply (header_key_takes_precedence keyed_cfg _ "alpha"); [|reflexivity].
  vm_compute. apply list_elem_of_In. simpl. auto.
Defined.

(** * Further properties of the query validator *)

Section ValidatorMore.
Lemma lower_app a b : lower (a ++ b) = (lower a ++ lower b)%string.
Proof.
  induction a as [|x a IH]; [reflexivity|].
  exact (f_equal (String (lower_char x)) IH).
Qed.

Lemma string_length_app a b :
  String.length (a ++ b) = (String.length a + String.length b)%nat.
Proof.
  induction a as [|x a IH]; [reflexivity|]. exact (f_equal S IH).
Qed.

Lemma startswith_app p s b :
  startswith p s = true → startswith p (s ++ b) = true.
Proof.
  revert s. induction p as [|x p IH]; intros s; [done|].
  destruct s as [|y s]; [done|].
  change (String y s ++ b)%string with (String y (s ++ b)). simpl.
  intros [-> Hp]%andb_true_iff. simpl. by apply IH.
Qed.

Lemma contains_app_l p s b : contains p s = true → contains p (s ++ b) = true.
Proof.
  induction s as [|y s IH].
  - simpl. rewrite orb_false_r. intros Hp.
    change (EmptyString ++ b)%string with b.
    destruct p; [by destruct b|done].
  - change (String y s ++ b)%string with (String y (s ++ b)). simpl.
    intros [Hs|Hc]%orb_true_iff.
    + apply (startswith_app p (String y s) b) in Hs.
      change (String y s ++ b)%string with (String y (s ++ b)) in Hs.
      by rewrite Hs.
    + rewrite (IH Hc). apply orb_true_r.
Qed.

Lemma contains_app_r p a s : contains p s = true → contains p (a ++ s) = true.
Proof.
  intros Hp. induction a as [|x a IH]; [done|].
  change (String x a ++ s)%string with (String x (a ++ s)). simpl.
  rewrite IH. apply orb_true_r.
Qed.

Lemma no_pattern_in_false patterns q :
  no_pattern_in patterns q = false →
  ∃ p, p ∈ patterns ∧ contains p q = true.
Proof.
  induction patterns as [|p ps IH]; simpl; [done|].
  destruct (contains p q) eqn:E.
  - intros _. exists p. split; [apply elem_of_cons; by left|done].
  - intros (p' & Hp' & Hc)%IH. exists p'. split; [apply elem_of_cons; by right|done].
Qed.

Lemma no_pattern_inside patterns a q b :
  no_pattern_in patterns (lower (a ++ q ++ b)) = true →
  no_pattern_in patterns (lower q) = true.
Proof.
  intros Hall. destruct (no_pattern_in patterns (lower q)) eqn:E; [done|].
  apply no_pattern_in_false in E as (p & Hp & Hc).
  rewrite (no_pattern_in_found patterns p _ Hp) in Hall; [done|].
  rewrite !lower_app. by apply contains_app_r, contains_app_l.
Qed.

Lemma strip_length s : (String.length (strip s) ≤ String.length s)%nat.
Proof.
  destruct (strip_is_inside s) as (a & b & Hs).
  rewrite Hs at 2. rewrite !string_length_app. lia.
Qed.

Lemma lstrip_blank s :
  (∀ c, c ∈ list_ascii_of_string s → isspace c = true) → lstrip s = EmptyString.
Proof.
  induction s as [|c s IH]; simpl; [done|]. intros Hall.
  rewrite (Hall c) by (apply elem_of_cons; by left).
  apply IH. intros c' Hc'. apply Hall, elem_of_cons. by right.
Qed.

Lemma lower_char_space c : isspace c = true → lower_char c = c.
Proof.
  destruct c as [[] [] [] [] [] [] [] []]; vm_compute; intros; done.
Qed.

Lemma lower_blank s :
  (∀ c, c ∈ list_ascii_of_string s → isspace c = true) → lower s = s.
Proof.
  induction s as [|c s IH]; simpl; [done|]. intros Hall.
  rewrite (lower_char_space c) by (apply Hall, elem_of_cons; by left).
  rewrite IH; [done|]. intros c' Hc'. apply Hall, elem_of_cons. by right.
Qed.

Lemma patterns_start_visible p :
  p ∈ malicious_patterns →
  ∃ c, c ∈ list_ascii_of_string p ∧ isspace c = false.
Proof.
  unfold malicious_patterns. rewrite !elem_of_cons, elem_of_nil. intros Hp.
  repeat (destruct Hp as [->|Hp];
    [eexists; split; [apply elem_of_cons; left; reflexivity|reflexivity]|]).
  destruct Hp.
Qed.

Lemma validate_query_input_str v :
  validate_query_input (PyStr v) =
  truthy v && negb (1000 <? String.length v)%nat &&
  no_pattern_in malicious_patterns (lower v).
Proof.
  unfold validate_query_input. destruct (truthy v); [|done].
  by destruct (1000 <? String.length v)%nat.
Qed.
End ValidatorMore.

(** X12: a rejected text that is not empty stays rejected whatever is put before
    or after it. *)
Theorem rejected_text_stays_rejected u v w :
  v ≠ EmptyString →
  validate_query_input (PyStr v) = false →
  validate_query_input (PyStr (u ++ v ++ w)) = false.
Proof.
  intros Hne. rewrite !validate_query_input_str, (truthy_true v Hne).
  rewrite !string_length_app. cbn [andb].
  destruct (1000 <? String.length v)%nat eqn:Elen.
  - intros _. apply Nat.ltb_lt in Elen.
    rewrite (proj2 (Nat.ltb_lt _ _)) by lia. by rewrite andb_false_r.
  - cbn [andb negb]. intros (p & Hp & Hc)%no_pattern_in_false.
    rewrite (no_pattern_in_found _ p _ Hp); [apply andb_false_r|].
    rewrite !lower_app. by apply contains_app_r, contains_app_l.
Qed.

Lemma rejected_text_stays_rejected_witness :
  validate_query_input (PyStr ("please " ++ "EVAL(" ++ "1)")) = false.
Proof.
  apply (rejected_text_stays_rejected "please " "EVAL(" "1)");
    [discriminate|reflexivity].
Defined.

(** X13: the value [QueryRequest] hands to the endpoint is the trimmed input, at
    most 1000 characters long, unchanged by further trimming, and unless it
    is empty it passes validation again unchanged. *)
Theorem validated_value_is_stable v r :
  QueryRequest_parse (Some v) = Some r →
  r = strip v ∧ (String.length r ≤ 1000)%nat ∧ strip r = r ∧
  (r ≠ EmptyString → QueryRequest_parse (Some r) = Some r).
Proof.
  rewrite QueryRequest_parse_unfold.
  destruct (truthy v) eqn:Et; [|done].
  destruct (1000 <? String.length v)%nat eqn:Elen; [done|].
  destruct (no_pattern_in malicious_patterns (lower v)) eqn:Ep; [|done].
  cbn [andb negb]. intros ?; simplify_eq.
  apply Nat.ltb_ge in Elen. pose proof (strip_length v) as Hlen.
  split_and!; [done|lia|apply strip_fixed|].
  intros Hne. rewrite QueryRequest_parse_unfold, (truthy_true _ Hne).
  rewrite (proj2 (Nat.ltb_ge _ _)) by lia. cbn [andb negb].
  destruct (strip_is_inside v) as (a & b & Hv).
  rewrite Hv in Ep. rewrite (no_pattern_inside _ _ _ _ Ep).
  by rewrite strip_fixed.
Qed.

Lemma validated_value_is_stable_witness :
  "top campaigns?" = strip "  top campaigns? " ∧
  (String.length "top campaigns?" ≤ 1000)%nat ∧
  strip "top campaigns?" = "top campaigns?" ∧
  ("top campaigns?" ≠ EmptyString →
   QueryRequest_parse (Some "top campaigns?") = Some "top campaigns?").
Proof.
  apply (validated_value_is_stable "  top campaigns? " "top campaigns?").
  reflexivity.
Defined.

(** X14: a text of at most 1000 characters that is not empty and holds blanks
    only passes validation, and the endpoint receives the empty text. *)
Theorem blank_text_passes_as_empty v :
  v ≠ EmptyString →
  (String.length v ≤ 1000)%nat →
  (∀ c, c ∈ list_ascii_of_string v → isspace c = true) →
  QueryRequest_parse (Some v) = Some EmptyString.
Proof.
  intros Hne Hlen Hblank.
  rewrite QueryRequest_parse_unfold, (truthy_true v Hne).
  rewrite (proj2 (Nat.ltb_ge _ _) Hlen). cbn [andb negb].
  rewrite no_pattern_in_clean.
  - unfold strip. by rewrite (lstrip_blank v Hblank).
  - intros p Hp. destruct (contains p (lower v)) eqn:Ec; [exfalso|done].
    destruct (patterns_start_visible p Hp) as (c & Hc & Hvis).
    rewrite (lower_blank v Hblank) in Ec.
    pose proof (contains_chars p v c Ec Hc) as Hin.
    rewrite (Hblank c Hin) in Hvis. discriminate.
Qed.

Lemma blank_text_passes_as_empty_witness :
  QueryRequest_parse (Some (String "009" (String "160" " "))) = Some EmptyString.
Proof.
  apply blank_text_passes_as_empty; [discriminate|simpl; lia|].
  intros c. simpl. rewrite !elem_of_cons, elem_of_nil.
  intros [->|[->|[->|[]]]]; reflexivity.
Defined.

(** * Further properties of the application *)

Lemma admitted_response_has_security_headers_witness :
  headers_get "strict-transport-security"
    (headers (fst (app development_no_keys failing_processor (fun _ => "2c26b46b")
                     cors_no_origin 0
                     (crewai_request None None (Some "What are our top campaigns?"))
                     fresh_world)))
  = Some "max-age=31536000; includeSubDomains".
Proof.
  apply (admitted_response_has_security_headers development_no_keys
           failing_processor (fun _ => "2c26b46b") cors_no_origin 0
           (crewai_request None None (Some "What are our top campaigns?"))
           fresh_world "Strict-Transport-Security").
  - vm_compute. reflexivity.
  - unfold get_security_headers. rewrite !elem_of_cons. auto 10.
Defined.

Section AppMore.
Variable cfg : SecurityConfig.
Variable hash_sensitive_data : string → string.

(** The authenticator refuses with status 401 and one fixed message. *)
Lemma refusal_is_401 request status detail :
  APIKeyAuth_call cfg request = AuthHTTPException status detail →
  status = 401 ∧ detail = "Invalid or missing API key".
Proof.
  unfold APIKeyAuth_call.
  destruct (_ && _); [done|].
  destruct (x_api_key request) as [k|];
    [destruct (truthy k && validate_api_key cfg k); [done|]|];
    (destruct (bearer request) as [[scheme token]|];
       [destruct (validate_api_key cfg token)|]; intros ?; by simplify_eq).
Qed.


(** X17: for a request whose body is a JSON object with a text in its
    [query] field, the status of the answer follows the order of the gates:
    429 when the limiter refuses, else 401 when the authenticator refuses,
    else 422 when the validator refuses the text, else 500 when the
    processor raises on the trimmed text, else 200. *)
Theorem status_follows_gate_order run_crew_query now request w v :
  query request = Some v →
  status_code (fst (app cfg run_crew_query hash_sensitive_data cors_no_origin
                      now request w)) =
  if negb (fst (is_allowed cfg now (client_host request) (requests w))) then 429
  else if negb (admits (APIKeyAuth_call cfg request)) then 401
  else if negb (validate_query_input (PyStr v)) then 422
  else match run_crew_query (strip v) with inl _ => 200 | inr _ => 500 end.
Proof.
  intros Hq.
  unfold app, user_middleware, add_middleware, build_middleware_stack,
    cors_no_origin. cbn -[validate_query_input].
  unfold log_requests, rate_limit_middleware. cbn -[validate_query_input].
  destruct (is_allowed cfg now (client_host request) (requests w)) as [[] rq];
    cbn -[validate_query_input]; [|done].
  unfold add_security_headers, crewai_route, query_crew_endpoint.
  rewrite Hq. unfold QueryRequest_parse, QueryRequest_validate_query.
  destruct (validate_query_input (PyStr v)); cbn [negb];
    [destruct (run_crew_query (strip v))|];
    (destruct (APIKeyAuth_call cfg request) as [| |status detail] eqn:Ea; cbn -[validate_query_input];
     [done|done|by destruct (refusal_is_401 request status detail Ea) as [-> _]]).
Qed.

(** X18: a request refused by the limiter, by the authenticator or by the
    validator is answered without the processor: response and state are the
    same whatever the processor would do. *)
Theorem refused_requests_never_reach_processor run1 run2 now request w :
  fst (is_allowed cfg now (client_host request) (requests w)) = false ∨
  admits (APIKeyAuth_call cfg request) = false ∨
  QueryRequest_parse (query request) = None →
  app cfg run1 hash_sensitive_data cors_no_origin now request w =
  app cfg run2 hash_sensitive_data cors_no_origin now request w.
Proof.
  intros Hrefused.
  unfold app, user_middleware, add_middleware, build_middleware_stack,
    cors_no_origin. simpl.
  unfold log_requests, rate_limit_middleware. simpl.
  destruct (is_allowed cfg now (client_host request) (requests w)) as [[] rq];
    simpl in *; [|done].
  unfold add_security_headers, crewai_route.
  destruct Hrefused as [?|[Hauth|Hq]]; [done| |].
  - by destruct (APIKeyAuth_call cfg request).
  - rewrite Hq. by destruct (APIKeyAuth_call cfg request).
Qed.

(** X19: every request costs its client one call of the limiter, whatever the
    answer is: the limiter's dictionary after the request is the one
    [is_allowed] returns, and nothing else in the chain writes to it. *)
Theorem every_request_is_counted_once run_crew_query now request w :
  requests (snd (app cfg run_crew_query hash_sensitive_data cors_no_origin
                   now request w)) =
  snd (is_allowed cfg now (client_host request) (requests w)).
Proof.
  unfold app, user_middleware, add_middleware, build_middleware_stack,
    cors_no_origin. simpl.
  unfold log_requests, rate_limit_middleware. simpl.
  destruct (is_allowed cfg now (client_host request) (requests w)) as [[] rq];
    simpl; [|done].
  unfold add_security_headers, crewai_route, query_crew_endpoint.
  destruct (APIKeyAuth_call cfg request); simpl; try done;
    (destruct (QueryRequest_parse (query request)) as [q|]; simpl; [|done];
     by destruct (run_crew_query q)).
Qed.

(** X20: a request that passes the three gates reaches the processor with the
    trimmed query, and the processor's result is the body of a 200
    response. *)
Theorem valid_request_gets_processor_result run_crew_query now request w v result :
  fst (is_allowed cfg now (client_host request) (requests w)) = true →
  admits (APIKeyAuth_call cfg request) = true →
  query request = Some v →
  validate_query_input (PyStr v) = true →
  run_crew_query (strip v) = inl result →
  let response := fst (app cfg run_crew_query hash_sensitive_data cors_no_origin
                         now request w) in
  status_code response = 200 ∧ content response = result.
Proof.
  intros Hallowed Hauth Hq Hv Hrun.
  unfold app, user_middleware, add_middleware, build_middleware_stack,
    cors_no_origin. simpl.
  unfold log_requests, rate_limit_middleware. simpl.
  destruct (is_allowed cfg now (client_host request) (requests w)) as [b rq].
  simpl in Hallowed. subst b. simpl.
  unfold add_security_headers, crewai_route, query_crew_endpoint.
  rewrite Hq. unfold QueryRequest_parse, QueryRequest_validate_query.
  rewrite Hv. cbn [negb]. rewrite Hrun.
  by destruct (APIKeyAuth_call cfg request).
Qed.
End AppMore.

Lemma status_follows_gate_order_witness :
  status_code (fst (app production_no_keys failing_processor (fun _ => "2c26b46b")
                      cors_no_origin 0
                      (crewai_request None None (Some "<script>alert(1)</script>"))
                      fresh_world)) = 401.
Proof.
  rewrite (status_follows_gate_order production_no_keys (fun _ => "2c26b46b")
             failing_processor 0
             (crewai_request None None (Some "<script>alert(1)</script>"))
             fresh_world "<script>alert(1)</script>" eq_refl).
  reflexivity.
Defined.

Lemma refused_requests_never_reach_processor_witness :
  app production_no_keys failing_processor (fun _ => "2c26b46b") cors_no_origin 0
    (crewai_request None None (Some "What are our top campaigns?")) fresh_world =
  app production_no_keys echo_processor (fun _ => "2c26b46b") cors_no_origin 0
    (crewai_request None None (Some "What are our top campaigns?")) fresh_world.
Proof.
  apply refused_requests_never_reach_processor. right. left. reflexivity.
Defined.

Lemma valid_request_gets_processor_result_witness :
  let response :=
    fst (app development_no_keys echo_processor (fun _ => "2c26b46b")
           cors_no_origin 0
           (crewai_request None None (Some "  top campaigns? ")) fresh_world) in
  status_code response = 200 ∧
  content response = [("result", "top campaigns?"); ("status", "success")].
Proof.
  apply (valid_request_gets_processor_result development_no_keys
           (fun _ => "2c26b46b") echo_processor 0
           (crewai_request None None (Some "  top campaigns? ")) fresh_world
           "  top campaigns? ");
    reflexivity.
Defined.

(** * Properties of the health endpoint and of the static front end *)

Section HealthAndStatic.
Lemma contains_inside p a s b :
  contains p s = true → contains p (a ++ s ++ b) = true.
Proof. intros Hp. by apply contains_app_r, contains_app_l. Qed.

Lemma contains_self s : contains s s = true.
Proof. destruct s; simpl; by rewrite ?Ascii.eqb_refl, ?startswith_refl. Qed.

Lemma join_names_member sep (l : list string) x :
  x ∈ l → contains x (join sep (map (fun y => "'" ++ y ++ "'")%string l)) = true.
Proof.
  induction l as [|y l IH]; [by intros ?%elem_of_nil|].
  intros [->|Hx]%elem_of_cons.
  - destruct l as [|z l].
    + change (contains y ("'" ++ y ++ "'") = true).
      apply contains_inside, contains_self.
    + change (contains y (("'" ++ y ++ "'") ++ sep ++
                join sep (map (fun y => "'" ++ y ++ "'")%string (z :: l))) = true).
      rewrite !string_app_assoc. apply contains_inside, contains_self.
  - specialize (IH Hx). destruct l as [|z l]; [by apply elem_of_nil in Hx|].
    change (contains x (("'" ++ y ++ "'") ++ sep ++
              join sep (map (fun y => "'" ++ y ++ "'")%string (z :: l))) = true).
    by apply contains_app_r, contains_app_r.
Qed.

Lemma repr_list_member (l : list string) x :
  x ∈ l → contains x (repr_list l) = true.
Proof.
  intros Hx. unfold repr_list.
  by apply contains_inside, join_names_member.
Qed.
End HealthAndStatic.

(** X21: the health endpoint answers healthy, and leaves the log alone, exactly
    when each of the four required variables is set to a non-empty value;
    otherwise it raises 503 with a detail that names every required variable
    that is unset or empty, and logs a warning. *)
Theorem health_check_reports_missing getenv timestamp w :
  match fst (health_check getenv timestamp w) with
  | Returned body =>
      (∀ var, var ∈ required_vars → ∃ value, getenv var = Some value ∧
                                            value ≠ EmptyString) ∧
      (("status", "healthy") : string * string) ∈ body ∧
      snd (health_check getenv timestamp w) = w
  | RaisedHTTPException status detail =>
      status = 503 ∧
      (∃ var, var ∈ required_vars ∧ env_missing getenv var = true) ∧
      (∀ var, var ∈ required_vars → env_missing getenv var = true →
              contains var detail = true) ∧
      ∃ msg, log (snd (health_check getenv timestamp w)) = log w ++ [LogWarning msg]
  end.
Proof.
  unfold health_check.
  destruct (List.filter (env_missing getenv) required_vars) as [|m ms] eqn:E;
    cbn [fst snd log logged].
  - split_and!; [|apply elem_of_cons; by left|done].
    intros var Hvar%list_elem_of_In.
    destruct (env_missing getenv var) eqn:Em.
    + assert (Hin : In var (List.filter (env_missing getenv) required_vars))
        by (apply filter_In; done).
      rewrite E in Hin. destruct Hin.
    + unfold env_missing in Em. destruct (getenv var) as [value|]; [|done].
      exists value. split; [done|]. by destruct value.
  - split_and!; [done| | |by eexists].
    + assert (Hin : In m (List.filter (env_missing getenv) required_vars))
        by (rewrite E; by left).
      apply filter_In in Hin as [Hin Hm]. exists m. by rewrite list_elem_of_In.
    + intros var Hvar%list_elem_of_In Hm.
      apply contains_app_r, repr_list_member.
      rewrite <- E. apply list_elem_of_In, filter_In. done.
Qed.

(** X22: a path that begins with one of the reserved words is answered 404
    whatever the file system holds; any other path is answered with a file
    whenever [index.html] exists in the static directory. *)
Theorem frontend_route_reserved_and_fallback exists_ isfile path :
  (∀ prefix, prefix ∈ ["api/"; "docs"; "health"; "crewai"] →
             startswith prefix path = true →
             serve_frontend_routes exists_ isfile path = NotFound404) ∧
  ((∀ prefix, prefix ∈ ["api/"; "docs"; "health"; "crewai"] →
              startswith prefix path = false) →
   exists_ "/app/static/index.html" = true →
   ∃ file, serve_frontend_routes exists_ isfile path = FileResponse file).
Proof.
  unfold serve_frontend_routes. split.
  - intros prefix Hp%list_elem_of_In Hs.
    assert (Hex : existsb (fun prefix => startswith prefix path)
                    ["api/"; "docs"; "health"; "crewai"] = true).
    { apply existsb_exists. by exists prefix. }
    by rewrite Hex.
  - intros Hnone Hindex.
    assert (Hex : existsb (fun prefix => startswith prefix path)
                    ["api/"; "docs"; "health"; "crewai"] = false).
    { destruct (existsb _ _) eqn:Ex; [|done].
      apply existsb_exists in Ex as (prefix & Hp%list_elem_of_In & Hs).
      by rewrite (Hnone prefix Hp) in Hs. }
    rewrite Hex.
    destruct (exists_ (os_path_join static_dir path) && isfile _);
      [by eexists|].
    change (os_path_join static_dir "index.html") with "/app/static/index.html".
    rewrite Hindex. by eexists.
Qed.

Lemma frontend_route_reserved_and_fallback_witness :
  serve_frontend_routes only_index_exists only_index_exists "healthy.png"
    = NotFound404 ∧
  ∃ file, serve_frontend_routes only_index_exists only_index_exists "about"
          = FileResponse file.
Proof.
  destruct (frontend_route_reserved_and_fallback only_index_exists
              only_index_exists "healthy.png") as [Hres _].
  destruct (frontend_route_reserved_and_fallback only_index_exists
              only_index_exists "about") as [_ Hfall].
  split.
  - apply (Hres "health"); [rewrite !elem_of_cons; auto 10|reflexivity].
  - apply Hfall; [|reflexivity].
    intros prefix. rewrite !elem_of_cons, elem_of_nil.
    intros [->|[->|[->|[->|[]]]]]; reflexivity.
Defined.

(** X23: a path that begins with a slash is not looked up under the static
    directory: when it names a regular file anywhere on the server, that
    file is the answer. *)
Theorem absolute_path_leaves_static_dir exists_ isfile path :
  startswith "/" path = true →
  exists_ path = true → isfile path = true →
  serve_frontend_routes exists_ isfile path = FileResponse path.
Proof.
  intros Hslash Hex Hfile.
  destruct path as [|c path]; [done|].
  assert (Hc : c = "/"%char).
  { cbn [startswith] in Hslash. apply andb_true_iff in Hslash as [Hc _].
    by apply Ascii.eqb_eq in Hc. }
  subst c.
  assert (Hjoin : os_path_join static_dir (String "/" path) = String "/" path)
    by reflexivity.
  assert (Hfree : existsb (fun prefix => startswith prefix (String "/" path))
                    ["api/"; "docs"; "health"; "crewai"] = false)
    by reflexivity.
  unfold serve_frontend_routes. by rewrite Hfree, Hjoin, Hex, Hfile.
Qed.

Lemma absolute_path_leaves_static_dir_witness :
  serve_frontend_routes passwd_exists passwd_exists "/etc/passwd"
  = FileResponse "/etc/passwd".
Proof.
  apply absolute_path_leaves_static_dir; reflexivity.
Defined.

